(** * nequip.nn._grad_output: gradient, force and stress outputs

    A shallow embedding of [GradientOutput], [ForceOutput] and
    [StressOutput] (src/nequip/nn/_grad_output.py).

    Python objects live in a heap: tensors and state dictionaries are
    referred to by address, so that in-place mutation ([requires_grad_],
    [data[k] = v], [del data[k]]) and aliasing are visible.  Exceptions
    abort a computation and leave the heap as it was when they were
    raised.  Tensor elements are taken from an arbitrary scalar type with
    the arithmetic operations of the element type; the reverse-mode
    differentiation engine and the wrapped model are parameters. *)

From stdpp Require Import gmap strings list fin_maps.
From Stdlib Require Import ZArith QArith.

Open Scope string_scope.
Open Scope list_scope.
Open Scope nat_scope.

(** ** Scalars *)

Class Scalar (R : Type) := {
  s_zero : R;
  s_add : R -> R -> R;
  s_sub : R -> R -> R;
  s_mul : R -> R -> R;
  s_div : R -> R -> R;
  s_neg : R -> R
}.

(** The two laws that make a zero strain an identity perturbation. *)
Record ZeroLaws (R : Type) `{Scalar R} : Prop := {
  zl_mul_0_r : forall x : R, s_mul x s_zero = s_zero;
  zl_add_0_r : forall x : R, s_add x s_zero = x
}.

(** ** Exceptions and results *)

Inductive exn :=
| RuntimeError (msg : string)
| KeyError (key : string)
| IndexError
| AssertionError (msg : string)
| NotImplementedError
| ValueError (msg : string)
| TypeError (msg : string)
| SystemError
| ModelError (msg : string).

Inductive result (A : Type) :=
| Ok (a : A)
| Raise (e : exn).
Arguments Ok {A} a.
Arguments Raise {A} e.

(** ** Representation types (e3nn [Irreps]) *)

(** An [Irreps] is a list of (multiplicity, degree, parity-is-odd). *)
Definition Irreps := list (nat * nat * bool).

(** [Irreps("0e")]: one rotation-invariant scalar. *)
Definition Irreps_0e : Irreps := [(1, 0, false)].
(** [Irreps("1o")]: one vector. *)
Definition Irreps_1o : Irreps := [(1, 1, true)].

(** An irreps dictionary maps a field name to an [Irreps] or to [None]. *)
Abbreviation irreps_dict := (gmap string (option Irreps)).

(** Modelled from the spec: the field-name constants of
    [nequip.data.AtomicDataDict], a module that the sources at hand only
    import.  The names are those the spec gives to the fields. *)
Definition POSITIONS_KEY : string := "positions".
Definition CELL_KEY : string := "cell".
Definition BATCH_KEY : string := "batch".
Definition TOTAL_ENERGY_KEY : string := "total_energy".
Definition FORCE_KEY : string := "force".
Definition STRESS_KEY : string := "stress".
(** The helper field is a literal of the source. *)
Definition DISPLACEMENT : string := "_displacement".

Section Model.
Context {R : Type} `{Scalar R}.

(** ** Tensors *)

Inductive storage :=
| Floats (xs : list R)
| Longs (xs : list Z).

(** A contiguous tensor: its shape, its elements in row-major order and
    its differentiation-enabled flag. *)
Record Tensor := mkTensor {
  shape : list nat;
  elems : storage;
  requires_grad : bool
}.

Definition numel (sh : list nat) : nat := fold_right Nat.mul 1 sh.

Definition fget (xs : list R) (i : nat) : R := nth i xs s_zero.

(** The float elements of a tensor ([[]] for an integer tensor). *)
Definition floats (t : Tensor) : list R :=
  match elems t with Floats xs => xs | Longs _ => [] end.

(** [t[i, j]] and [t[i, j, k]] on the row-major elements. *)
Definition at2 (t : Tensor) (i j : nat) : R :=
  match shape t with
  | [_; m] => fget (floats t) (i * m + j)
  | _ => s_zero
  end.

Definition at3 (t : Tensor) (i j k : nat) : R :=
  match shape t with
  | [_; n; m] => fget (floats t) ((i * n + j) * m + k)
  | _ => s_zero
  end.

(** ** The heap and the monad of Python computations *)

Record heap := mkHeap {
  tensors : list Tensor;
  dicts : list (gmap string nat)
}.

Definition M (A : Type) : Type := heap -> heap * result A.

Definition ret {A} (a : A) : M A := fun h => (h, Ok a).
Definition raise {A} (e : exn) : M A := fun h => (h, Raise e).
Definition bind {A B} (m : M A) (k : A -> M B) : M B :=
  fun h => match m h with
           | (h', Ok a) => k a h'
           | (h', Raise e) => (h', Raise e)
           end.
Definition lift {A} (r : result A) : M A := fun h => (h, r).

Notation "'let*' x ':=' m 'in' k" := (bind m (fun x => k))
  (at level 10, x pattern, m at level 100, k at level 200).
Notation "m ;; k" := (bind m (fun _ => k))
  (at level 100, k at level 200, right associativity).

(** Allocation of a fresh tensor object. *)
Definition new_tensor (t : Tensor) : M nat :=
  fun h => (mkHeap (tensors h ++ [t]) (dicts h), Ok (length (tensors h))).

Definition tensor_at (a : nat) : M Tensor :=
  fun h => match tensors h !! a with
           | Some t => (h, Ok t)
           | None => (h, Raise SystemError)
           end.

(** [data[k]] *)
Definition getitem (data : nat) (k : string) : M nat :=
  fun h => match dicts h !! data with
           | Some d => match d !! k with
                       | Some a => (h, Ok a)
                       | None => (h, Raise (KeyError k))
                       end
           | None => (h, Raise SystemError)
           end.

(** [k in data] *)
Definition contains (data : nat) (k : string) : M bool :=
  fun h => match dicts h !! data with
           | Some d => (h, Ok (bool_decide (is_Some (d !! k))))
           | None => (h, Raise SystemError)
           end.

(** [data[k] = a] *)
Definition setitem (data : nat) (k : string) (a : nat) : M unit :=
  fun h => match dicts h !! data with
           | Some d => (mkHeap (tensors h) (<[data := <[k := a]> d]> (dicts h)), Ok tt)
           | None => (h, Raise SystemError)
           end.

(** [del data[k]] *)
Definition delitem (data : nat) (k : string) : M unit :=
  fun h => match dicts h !! data with
           | Some d => match d !! k with
                       | Some _ => (mkHeap (tensors h) (<[data := delete k d]> (dicts h)), Ok tt)
                       | None => (h, Raise (KeyError k))
                       end
           | None => (h, Raise SystemError)
           end.

(** [t.requires_grad_(b)]: only floating-point tensors can require
    gradients. *)
Definition requires_grad_ (a : nat) (b : bool) : M unit :=
  fun h => match tensors h !! a with
           | Some t =>
               match elems t, b with
               | Longs _, true =>
                   (h, Raise (RuntimeError "only Tensors of floating point dtype can require gradients"))
               | _, _ =>
                   (mkHeap (<[a := mkTensor (shape t) (elems t) b]> (tensors h)) (dicts h), Ok tt)
               end
           | None => (h, Raise SystemError)
           end.

(** ** Tensor operations used by the source *)

(** [sum] of a list of scalars, accumulated from the left. *)
Definition sum_list (xs : list R) : R := fold_left s_add xs s_zero.

(** [torch.neg(t)] *)
Definition neg (t : Tensor) : Tensor :=
  mkTensor (shape t)
    (match elems t with
     | Floats xs => Floats (map s_neg xs)
     | Longs xs => Longs (map Z.opp xs)
     end)
    (requires_grad t).

(** [t.sum()]: a zero-dimensional tensor. *)
Definition tsum (t : Tensor) : Tensor :=
  mkTensor []
    (match elems t with
     | Floats xs => Floats [sum_list xs]
     | Longs xs => Longs [fold_left Z.add xs 0%Z]
     end)
    (requires_grad t).

(** [int(batch.max().cpu().item())].  The state container types the batch
    index as an integer tensor; a floating-point one is refused here (the
    source refuses it where it is used as an index). *)
Definition long_max (t : Tensor) : result Z :=
  match elems t with
  | Longs (x :: xs) => Ok (fold_left Z.max xs x)
  | Longs [] => Raise (RuntimeError "max(): input.numel() == 0")
  | Floats _ => Raise IndexError
  end.

(** [t.view(-1, 3, 3)] *)
Definition view_m33 (t : Tensor) : result Tensor :=
  let n := numel (shape t) in
  if n mod 9 =? 0
  then Ok (mkTensor [n / 9; 3; 3] (elems t) (requires_grad t))
  else Raise (RuntimeError "shape '[-1, 3, 3]' is invalid for input size").

Definition storage_repeat (s : storage) (n : nat) : storage :=
  match s with
  | Floats xs => Floats (concat (repeat xs n))
  | Longs xs => Longs (concat (repeat xs n))
  end.

(** [t.expand(num_batch, 3, 3)] for [t] of shape (m, 3, 3): a size of -1
    keeps the dimension, a dimension of size one is broadcast. *)
Definition expand_n33 (t : Tensor) (num_batch : Z) : result Tensor :=
  match shape t with
  | [m; 3; 3] =>
      if (num_batch =? -1)%Z then Ok t
      else if (num_batch <? 0)%Z then Raise (RuntimeError "expand: invalid size")
      else
        let n := Z.to_nat num_batch in
        if m =? n then Ok t
        else if m =? 1
        then Ok (mkTensor [n; 3; 3] (storage_repeat (elems t) n) (requires_grad t))
        else Raise (RuntimeError "The expanded size of the tensor must match the existing size")
  | _ => Raise (RuntimeError "expand: the number of sizes provided must match")
  end.

(** [torch.zeros((num_batch, 3, 3), dtype=like.dtype)] *)
Definition zeros_n33 (num_batch : Z) (like : Tensor) : result Tensor :=
  if (num_batch <? 0)%Z
  then Raise (RuntimeError "Trying to create tensor with negative dimension")
  else
    let n := Z.to_nat num_batch in
    Ok (mkTensor [n; 3; 3]
          (match elems like with
           | Floats _ => Floats (repeat s_zero (n * 9))
           | Longs _ => Longs (repeat 0%Z (n * 9))
           end)
          false).

(** A Python index into a dimension of size [n]: negative indices count
    from the end. *)
Definition norm_index (n : nat) (i : Z) : option nat :=
  if ((0 <=? i) && (i <? Z.of_nat n))%Z then Some (Z.to_nat i)
  else if ((- Z.of_nat n <=? i) && (i <? 0))%Z then Some (Z.to_nat (i + Z.of_nat n))
  else None.

Definition storage_gather (s : storage) (k : nat) (js : list nat) : storage :=
  match s with
  | Floats xs =>
      Floats (flat_map (fun j => map (fun c => nth (j * k + c) xs s_zero) (seq 0 k)) js)
  | Longs xs =>
      Longs (flat_map (fun j => map (fun c => nth (j * k + c) xs 0%Z) (seq 0 k)) js)
  end.

(** [t[idx]]: selection along the first dimension by an integer tensor. *)
Definition index_first (t idx : Tensor) : result Tensor :=
  match shape t, elems idx with
  | n :: rest, Longs js =>
      match mapM (norm_index n) js with
      | Some ks =>
          Ok (mkTensor (shape idx ++ rest)
                (storage_gather (elems t) (numel rest) ks) (requires_grad t))
      | None => Raise IndexError
      end
  | _, _ => Raise IndexError
  end.

(** [t.unsqueeze(-2)] *)
Definition unsqueeze_m2 (t : Tensor) : result Tensor :=
  match rev (shape t) with
  | last :: front =>
      Ok (mkTensor (rev front ++ [1; last]) (elems t) (requires_grad t))
  | [] => Raise IndexError
  end.

(** [t.squeeze(-2)] *)
Definition squeeze_m2 (t : Tensor) : result Tensor :=
  match rev (shape t) with
  | last :: 1 :: front =>
      Ok (mkTensor (rev front ++ [last]) (elems t) (requires_grad t))
  | _ :: _ :: _ => Ok t
  | _ => Raise IndexError
  end.

(** [torch.bmm(a, b)]: batched matrix product of (b, n, m) by (b, m, p). *)
Definition bmm (a b : Tensor) : result Tensor :=
  match shape a, shape b, elems a, elems b with
  | [ba; n; m], [bb; m'; p], Floats xs, Floats ys =>
      if (ba =? bb) && (m =? m')
      then
        Ok (mkTensor [ba; n; p]
              (Floats
                 (flat_map (fun i =>
                    flat_map (fun r =>
                      map (fun c =>
                        sum_list
                          (map (fun k => s_mul (fget xs ((i * n + r) * m + k))
                                               (fget ys ((i * m + k) * p + c)))
                               (seq 0 m)))
                        (seq 0 p))
                      (seq 0 n))
                    (seq 0 ba)))
              (requires_grad a || requires_grad b))
      else Raise (RuntimeError "bmm: batch1 and batch2 have incompatible sizes")
  | _, _, _, _ => Raise (RuntimeError "bmm: batch1 and batch2 must be 3D floating-point tensors")
  end.

(** Broadcasting of two shapes, both given innermost dimension first. *)
Fixpoint broadcast_rev (s1 s2 : list nat) : option (list nat) :=
  match s1, s2 with
  | [], s => Some s
  | s, [] => Some s
  | a :: s1', b :: s2' =>
      match broadcast_rev s1' s2' with
      | Some s =>
          if a =? b then Some (a :: s)
          else if a =? 1 then Some (b :: s)
          else if b =? 1 then Some (a :: s)
          else None
      | None => None
      end
  end.

(** The row-major position in an operand of shape [s] of the element
    that is broadcast to position [i] of the result of shape [so] (both
    shapes innermost dimension first). *)
Fixpoint bc_index (so s : list nat) (i : nat) : nat :=
  match so, s with
  | n :: so', m :: s' =>
      (if m =? 1 then 0 else i mod n) + m * bc_index so' s' (i / n)
  | _, _ => 0
  end.

(** An element-wise binary operation on floating-point tensors, with
    broadcasting: [a + b], [a / b]. *)
Definition binop (f : R -> R -> R) (a b : Tensor) : result Tensor :=
  match elems a, elems b with
  | Floats xs, Floats ys =>
      match broadcast_rev (rev (shape a)) (rev (shape b)) with
      | Some so =>
          Ok (mkTensor (rev so)
                (Floats (map (fun i => f (fget xs (bc_index so (rev (shape a)) i))
                                         (fget ys (bc_index so (rev (shape b)) i)))
                             (seq 0 (numel so))))
                (requires_grad a || requires_grad b))
      | None => Raise (RuntimeError "The size of tensor a must match the size of tensor b")
      end
  | _, _ => Raise (RuntimeError "expected floating-point tensors")
  end.

(** [torch.cross] of two 3-vectors and the scalar triple product. *)
Definition cross (b c : R * R * R) : R * R * R :=
  let '(b0, b1, b2) := b in
  let '(c0, c1, c2) := c in
  (s_sub (s_mul b1 c2) (s_mul b2 c1),
   s_sub (s_mul b2 c0) (s_mul b0 c2),
   s_sub (s_mul b0 c1) (s_mul b1 c0)).

Definition triple_product (a b c : R * R * R) : R :=
  let '(a0, a1, a2) := a in
  let '(x0, x1, x2) := cross b c in
  sum_list [s_mul a0 x0; s_mul a1 x1; s_mul a2 x2].

(** Row [r] of matrix [i] of a (N, 3, 3) tensor: [cell[i, r, :]]. *)
Definition row (cell : Tensor) (i r : nat) : R * R * R :=
  (at3 cell i r 0, at3 cell i r 1, at3 cell i r 2).

(** [torch.sum(cell[:, 0, :] * torch.cross(cell[:, 1, :], cell[:, 2, :],
    dim=1), dim=1, keepdim=True)[..., None]] *)
Definition volume (cell : Tensor) : result Tensor :=
  match shape cell, elems cell with
  | [n; 3; 3], Floats _ =>
      Ok (mkTensor [n; 1; 1]
            (Floats (map (fun i => triple_product (row cell i 0) (row cell i 1) (row cell i 2))
                         (seq 0 n)))
            (requires_grad cell))
  | _, _ => Raise (RuntimeError "cross: inputs must be floating-point with dimension 1 of size 3")
  end.

(** ** Collaborators *)

(** A graph module ([GraphModuleMixin]): its declared input and output
    representation types and its forward function on a state. *)
Record GraphModule := mkGraphModule {
  gm_irreps_in : irreps_dict;
  gm_irreps_out : irreps_dict;
  gm_forward : nat -> M nat
}.

(** [torch.autograd.grad([out], inputs, create_graph=...)].  The engine is
    a parameter: from the heap, the differentiated scalar, the addresses
    of the input tensors and [create_graph] it either raises or answers,
    for the input at each position of [inputs], [None] (no dependency) or
    the gradient, given by its differentiation-enabled flag and its
    element at each row-major position.  There is one answer per input,
    and a gradient has the shape of its input. *)
Variable autograd_grad :
  heap -> Tensor -> list nat -> bool -> result (nat -> option (bool * (nat -> R))).

(** [GraphModuleMixin._init_irreps(irreps_in, my_irreps_in, irreps_out)],
    which is not part of the sources at hand, is a parameter: it raises or
    yields the module's [irreps_in] and [irreps_out]. *)
Variable _init_irreps :
  irreps_dict -> irreps_dict -> irreps_dict -> result (irreps_dict * irreps_dict).

(** Modelled from the spec: [AtomicDataDict.with_batch], which is not part
    of the sources at hand.  It ensures that a per-atom batch index exists,
    deriving the trivial single-configuration index (all zeros, one entry
    per atom) when the state has none; the state is updated in place and
    handed back. *)
Definition with_batch (data : nat) : M nat :=
  let* has := contains data BATCH_KEY in
  if has : bool then ret data
  else
    let* p := getitem data POSITIONS_KEY in
    let* pos := tensor_at p in
    match shape pos with
    | n :: _ =>
        let* b := new_tensor (mkTensor [n] (Longs (repeat 0%Z n)) false) in
        setitem data BATCH_KEY b ;;
        ret data
    | [] => raise (TypeError "len() of a 0-d tensor")
    end.

(** ** GradientOutput

    The attribute [of] is written [of_]. *)

Record GradientOutput := mkGradientOutput {
  sign : Q;
  _negate : bool;
  of_ : string;
  wrt : list string;
  func : GraphModule;
  out_field : list string;
  irreps_in : irreps_dict;
  irreps_out : irreps_dict;
  training : bool
}.

(** [{f: self.irreps_in[wrt] for f, wrt in zip(self.out_field, self.wrt)}] *)
Fixpoint grad_irreps (ins : irreps_dict) (pairs : list (string * string))
    (acc : irreps_dict) : result irreps_dict :=
  match pairs with
  | [] => Ok acc
  | (f, w) :: pairs' =>
      match ins !! w with
      | Some r => grad_irreps ins pairs' (<[f := r]> acc)
      | None => Raise (KeyError w)
      end
  end.

(** [f"d({of})/d({e})"] *)
Definition default_out_field (of_ e : string) : string :=
  ("d(" ++ of_ ++ ")/d(" ++ e ++ ")")%string.

Definition is_unit_sign (sign : Q) : bool :=
  Qeq_bool sign 1 || Qeq_bool sign (-1).

(** [if isinstance(x, str): x = [x]] *)
Definition as_list (x : string + list string) : list string :=
  match x with
  | inl s => [s]
  | inr l => l
  end.

(** [GradientOutput.__init__(func, of, wrt, out_field=None, sign=1.0)];
    [wrt] and [out_field] are a string or a list of strings. *)
Definition GradientOutput_init (func : GraphModule) (of_ : string)
    (wrt : string + list string) (out_field : option (string + list string))
    (sign : Q) : result GradientOutput :=
  if negb (is_unit_sign sign) then Raise (AssertionError "")
  else
    let _negate := Qeq_bool sign (-1) in
    let wrt := as_list wrt in
    let out_field := as_list <$> out_field in
    match
      match out_field with
      | None => Ok (map (default_out_field of_) wrt)
      | Some l =>
          if length l =? length wrt then Ok l
          else Raise (AssertionError "Out field names must be given for all w.r.t tensors")
      end
    with
    | Raise e => Raise e
    | Ok out_field =>
        match _init_irreps (gm_irreps_in func) {[ of_ := Some Irreps_0e ]} (gm_irreps_out func) with
        | Raise e => Raise e
        | Ok (ins, outs) =>
            match grad_irreps ins (zip out_field wrt) ∅ with
            | Raise e => Raise e
            | Ok upd =>
                Ok (mkGradientOutput sign _negate of_ wrt func out_field ins (upd ∪ outs) true)
            end
        end
    end.

(** The first loop of [forward]: record each flag, then force it on. *)
Fixpoint set_requires_grad (data : nat) (ks : list string) : M (list bool * list nat) :=
  match ks with
  | [] => ret ([], [])
  | k :: ks' =>
      let* a := getitem data k in
      let* t := tensor_at a in
      requires_grad_ a true ;;
      let* rest := set_requires_grad data ks' in
      ret (requires_grad t :: rest.1, a :: rest.2)
  end.

(** The tensors answered by the differentiation engine are new objects. *)
Fixpoint alloc_grads (l : list (nat * option (bool * (nat -> R)))) : M (list (option nat)) :=
  match l with
  | [] => ret []
  | (_, None) :: l' =>
      let* gs := alloc_grads l' in
      ret (None :: gs)
  | (a, Some (rg, g)) :: l' =>
      let* t := tensor_at a in
      let* ga := new_tensor (mkTensor (shape t) (Floats (map g (seq 0 (numel (shape t))))) rg) in
      let* gs := alloc_grads l' in
      ret (Some ga :: gs)
  end.

Definition grad (out : Tensor) (inputs : list nat) (create_graph : bool)
    : M (list (option nat)) :=
  fun h => match autograd_grad h out inputs create_graph with
           | Ok gs => alloc_grads (imap (fun i a => (a, gs i)) inputs) h
           | Raise e => (h, Raise e)
           end.

Definition grad_error : exn :=
  RuntimeError "Something is wrong, gradient couldn't be computed".

(** The second loop of [forward]: [for out, grad in zip(self.out_field,
    grads)]. *)
Fixpoint write_grads (data : nat) (negate : bool) (l : list (string * option nat)) : M unit :=
  match l with
  | [] => ret tt
  | (_, None) :: _ => raise grad_error
  | (out, Some g) :: l' =>
      let* g' := (if negate
                  then (let* t := tensor_at g in new_tensor (neg t))
                  else ret g) in
      setitem data out g' ;;
      write_grads data negate l'
  end.

(** The third loop of [forward]: [for req_grad, k in
    zip(old_requires_grad, self.wrt)]. *)
Fixpoint unset_requires_grad (data : nat) (l : list (bool * string)) : M unit :=
  match l with
  | [] => ret tt
  | (req_grad, k) :: l' =>
      let* a := getitem data k in
      requires_grad_ a req_grad ;;
      unset_requires_grad data l'
  end.

Definition GradientOutput_forward (self : GradientOutput) (data : nat) : M nat :=
  let* olds := set_requires_grad data (wrt self) in
  let old_requires_grad := olds.1 in
  let wrt_tensors := olds.2 in
  let* data := gm_forward (func self) data in
  let* e := getitem data (of_ self) in
  let* et := tensor_at e in
  let* grads := grad (tsum et) wrt_tensors (training self) in
  write_grads data (_negate self) (zip (out_field self) grads) ;;
  unset_requires_grad data (zip old_requires_grad (wrt self)) ;;
  ret data.

(** A [GradientOutput] is itself a graph module. *)
Definition GradientOutput_module (self : GradientOutput) : GraphModule :=
  mkGraphModule (irreps_in self) (irreps_out self) (GradientOutput_forward self).

(** [ForceOutput(energy_model)] *)
Definition ForceOutput (energy_model : GraphModule) : result GradientOutput :=
  GradientOutput_init energy_model TOTAL_ENERGY_KEY (inl POSITIONS_KEY)
    (Some (inl FORCE_KEY)) (-1)%Q.

(** ** StressOutput *)

Record StressOutput := mkStressOutput {
  do_forces : bool;
  _grad : GradientOutput;
  so_irreps_in : irreps_dict;
  so_irreps_out : irreps_dict
}.

(** [StressOutput.__init__(energy_model, do_forces=True)].  The assignment
    [energy_model.irreps_in["_displacement"] = None] updates the model that
    is then wrapped. *)
Definition StressOutput_init (energy_model : GraphModule) (do_forces : bool)
    : result StressOutput :=
  if negb do_forces then Raise NotImplementedError
  else
    let energy_model :=
      mkGraphModule (<[DISPLACEMENT := None]> (gm_irreps_in energy_model))
        (gm_irreps_out energy_model) (gm_forward energy_model) in
    match GradientOutput_init energy_model TOTAL_ENERGY_KEY
            (inr [POSITIONS_KEY; DISPLACEMENT])
            (Some (inr [FORCE_KEY; STRESS_KEY])) 1%Q with
    | Raise e => Raise e
    | Ok g =>
        let ins := irreps_in g in
        if negb (bool_decide (is_Some (ins !! POSITIONS_KEY))) then Raise (AssertionError "")
        else
          let ins := <[CELL_KEY := None]> ins in
          match ins !! DISPLACEMENT with
          | None => Raise (KeyError DISPLACEMENT)
          | Some _ =>
              let ins := delete DISPLACEMENT ins in
              match _init_irreps ins ∅ (irreps_out g) with
              | Raise e => Raise e
              | Ok (ins', outs') =>
                  match outs' !! DISPLACEMENT with
                  | None => Raise (KeyError DISPLACEMENT)
                  | Some _ =>
                      Ok (mkStressOutput do_forces g ins' (delete DISPLACEMENT outs'))
                  end
              end
          end
    end.

(** The part of [StressOutput.forward] that precedes the call of the
    internal [GradientOutput] (source lines 169 to 192).  It hands on the
    state, the number of configurations and the address of the tensor that
    the variable [cell] names: the per-batch cell before its perturbation. *)
Definition StressOutput_perturb (data : nat) : M (nat * Z * nat) :=
  let* data := with_batch data in
  let* b := getitem data BATCH_KEY in
  let* batch := tensor_at b in
  let* mx := lift (long_max batch) in
  let num_batch := (mx + 1)%Z in
  let* c0 := getitem data CELL_KEY in
  let* cell0 := tensor_at c0 in
  let* viewed := lift (view_m33 cell0) in
  let* expanded := lift (expand_n33 viewed num_batch) in
  let* c1 := new_tensor expanded in
  setitem data CELL_KEY c1 ;;
  let* c1 := getitem data CELL_KEY in
  let* like := tensor_at c1 in
  let* zeros := lift (zeros_n33 num_batch like) in
  let* d := new_tensor zeros in
  requires_grad_ d true ;;
  setitem data DISPLACEMENT d ;;
  let* p := getitem data POSITIONS_KEY in
  let* pos := tensor_at p in
  let* displacement := tensor_at d in
  let* row_pos := lift (unsqueeze_m2 pos) in
  let* strain := lift (index_first displacement batch) in
  let* prod := lift (bmm row_pos strain) in
  let* shift := lift (squeeze_m2 prod) in
  let* new_pos := lift (binop s_add pos shift) in
  let* p' := new_tensor new_pos in
  setitem data POSITIONS_KEY p' ;;
  let* c := getitem data CELL_KEY in
  let* cell := tensor_at c in
  let* prod := lift (bmm cell displacement) in
  let* new_cell := lift (binop s_add cell prod) in
  let* c' := new_tensor new_cell in
  setitem data CELL_KEY c' ;;
  ret (data, num_batch, c).

(** The part of [StressOutput.forward] that follows the call of the
    internal [GradientOutput] (source lines 198 to 214). *)
Definition StressOutput_finish (data : nat) (num_batch : Z) (c : nat) : M nat :=
  let* f := getitem data FORCE_KEY in
  let* force := tensor_at f in
  let* f' := new_tensor (neg force) in
  setitem data FORCE_KEY f' ;;
  let* cell := tensor_at c in
  let* vol := lift (volume cell) in
  if negb (Z.of_nat (hd 0%nat (shape vol)) =? num_batch)%Z then raise (AssertionError "")
  else
    let* s := getitem data STRESS_KEY in
    let* stress := tensor_at s in
    let* scaled := lift (binop s_div stress vol) in
    let* s' := new_tensor scaled in
    setitem data STRESS_KEY s' ;;
    delitem data DISPLACEMENT ;;
    ret data.

Definition StressOutput_forward (self : StressOutput) (data : nat) : M nat :=
  let* st := StressOutput_perturb data in
  let data := st.1.1 in
  let num_batch := st.1.2 in
  let c := st.2 in
  let* data := GradientOutput_forward (_grad self) data in
  StressOutput_finish data num_batch c.

End Model.

(** Modelled from the spec: the type registry's check behind
    [GraphModuleMixin._init_irreps], which is not part of the sources at
    hand.  A field that the module requires with a given representation
    type ([my_irreps_in]) and that the wrapped module declares with another
    one is a contract violation; otherwise the declared input types are
    the module's input types, and its output types are its input types
    overwritten with the declared output types. *)
Definition init_irreps_spec (irreps_in my_irreps_in irreps_out : irreps_dict)
    : result (irreps_dict * irreps_dict) :=
  if forallb (fun kr : string * option Irreps =>
                match irreps_in !! kr.1 with
                | Some r' => bool_decide (r' = kr.2)
                | None => true
                end) (map_to_list my_irreps_in)
  then Ok (irreps_in, irreps_out ∪ irreps_in)
  else Raise (ValueError "The given input irreps are incompatible with this model").

Arguments storage : clear implicits.
Arguments Tensor : clear implicits.
Arguments heap : clear implicits.
Arguments M : clear implicits.
Arguments GraphModule : clear implicits.
Arguments GradientOutput : clear implicits.
Arguments StressOutput : clear implicits.

(** ** Observations on a heap *)

Section Observations.
Context {R : Type}.

(** The address that state [d] holds under field [k]. *)
Definition dict_at (h : heap R) (d : nat) (k : string) : option nat :=
  match dicts h !! d with
  | Some m => m !! k
  | None => None
  end.

(** The tensor that state [d] holds under field [k]. *)
Definition state_tensor (h : heap R) (d : nat) (k : string) : option (Tensor R) :=
  match dict_at h d k with
  | Some a => tensors h !! a
  | None => None
  end.

(** The differentiation-enabled flag of field [k] of state [d]. *)
Definition field_flag (h : heap R) (d : nat) (k : string) : option bool :=
  requires_grad <$> state_tensor h d k.

(** The fields [ks] of state [d] name pairwise distinct tensor objects. *)
Definition no_alias (h : heap R) (d : nat) (ks : list string) : Prop :=
  forall k1 k2 a, k1 ∈ ks -> k2 ∈ ks ->
    dict_at h d k1 = Some a -> dict_at h d k2 = Some a -> k1 = k2.

(** Every tensor object of [h] is still there in [h'], with the same shape
    and elements (its flag may differ). *)
Definition keeps_tensors (h h' : heap R) : Prop :=
  forall a t, tensors h !! a = Some t ->
    exists t', tensors h' !! a = Some t' /\ shape t' = shape t /\ elems t' = elems t.

(** A computation keeps a property of the heap, however it ends. *)
Definition preserves {A} (P : heap R -> Prop) (m : M R A) : Prop :=
  forall h h' r, m h = (h', r) -> P h -> P h'.

(** A heap property that allocation keeps, and that is kept by the
    assignment and the deletion of the fields in [W]. *)
Record stable (P : heap R -> Prop) (W : string -> Prop) : Prop := {
  stable_alloc : forall h t,
    P h -> P (mkHeap (tensors h ++ [t]) (dicts h));
  stable_set : forall h d m k a,
    W k -> dicts h !! d = Some m -> P h ->
    P (mkHeap (tensors h) (<[d := <[k := a]> m]> (dicts h)));
  stable_del : forall h d m k,
    W k -> dicts h !! d = Some m -> P h ->
    P (mkHeap (tensors h) (<[d := delete k m]> (dicts h)))
}.

(** A heap property that updates of the differentiation-enabled flags
    keep. *)
Definition flag_stable (P : heap R -> Prop) : Prop :=
  forall h a t b,
    tensors h !! a = Some t -> P h ->
    P (mkHeap (<[a := mkTensor (shape t) (elems t) b]> (tensors h)) (dicts h)).

(** The wrapped model keeps the shape and the elements of the tensor
    objects that exist when it is called. *)
Definition model_keeps_tensors (m : GraphModule R) : Prop :=
  forall d h h' r, gm_forward m d h = (h', r) -> keeps_tensors h h'.

(** The wrapped model leaves field [k] of the state it is given bound to
    the same object. *)
Definition model_keeps_field (m : GraphModule R) (k : string) : Prop :=
  forall d h h' r, gm_forward m d h = (h', r) -> dict_at h' d k = dict_at h d k.

(** The state that the wrapped model returns refers to existing objects. *)
Definition state_wf (h : heap R) (d : nat) : Prop :=
  forall k a, dict_at h d k = Some a -> a < length (tensors h).

End Observations.

(** ** Two runs that differ in the sign *)

Section Simulation.
Context {R : Type} `{Scalar R}.

(** The heap [hp] of a run with sign +1 and the heap [hn] of the run with
    sign -1 on the same input, as far as the returned state [d] goes.
    The objects below [m0] are those that existed when the wrapped model
    returned; [W] are the fields written so far and [ps] pairs each
    gradient object of the first run with its negation in the second. *)
Record sim (m0 d : nat) (W : list string) (ps : list (nat * nat))
    (hp hn : heap R) : Prop := {
  sim_dicts : exists mp mn,
    dicts hp !! d = Some mp /\ dicts hn !! d = Some mn /\
    forall k,
      if bool_decide (k ∈ W)
      then exists g g', mp !! k = Some g /\ mn !! k = Some g' /\ (g, g') ∈ ps
      else mp !! k = mn !! k /\ forall a, mp !! k = Some a -> a < m0;
  sim_old : forall a, a < m0 -> tensors hp !! a = tensors hn !! a;
  sim_pairs : forall g g', (g, g') ∈ ps ->
    m0 <= g /\ m0 <= g' /\
    exists t, tensors hp !! g = Some t /\ tensors hn !! g' = Some (neg t);
  sim_inj : forall g1 g1' g2 g2',
    (g1, g1') ∈ ps -> (g2, g2') ∈ ps -> (g1 = g2 <-> g1' = g2')
}.

(** While the gradients are written, the second run only allocates. *)
Record wsim (m0 d : nat) (W : list string) (ps : list (nat * nat))
    (hp hn : heap R) : Prop := {
  ws_sim : sim m0 d W ps hp hn;
  ws_agree : forall a, a < length (tensors hp) -> tensors hn !! a = tensors hp !! a;
  ws_fresh : forall g g', (g, g') ∈ ps ->
    g < length (tensors hp) /\ length (tensors hp) <= g' < length (tensors hn);
  ws_length : length (tensors hp) <= length (tensors hn)
}.

End Simulation.

(** * A worked instance

    Integer elements; two atoms in one configuration, an orthorhombic cell
    and no batch index. *)

#[export] Instance Z_scalar : Scalar Z := {|
  s_zero := 0%Z; s_add := Z.add; s_sub := Z.sub;
  s_mul := Z.mul; s_div := Z.div; s_neg := Z.opp
|}.

(** Object 0 holds the positions, object 1 the cell; state 0 is the
    caller's dictionary. *)
Definition ex_heap : heap Z :=
  mkHeap
    [ mkTensor [2; 3] (Floats [1; 2; 3; 4; 5; 6]%Z) false;
      mkTensor [3; 3] (Floats [2; 0; 0; 0; 3; 0; 0; 0; 4]%Z) false ]
    [ {[ POSITIONS_KEY := 0; CELL_KEY := 1 ]} ].

(** A wrapped model: it stores the sum of the coordinates as the total
    energy of the one configuration and hands the state back. *)
Definition ex_forward (d : nat) : M Z nat :=
  bind (getitem d POSITIONS_KEY) (fun p =>
  bind (tensor_at p) (fun pos =>
  bind (new_tensor (mkTensor [1; 1] (elems (tsum pos)) true)) (fun e =>
  bind (setitem d TOTAL_ENERGY_KEY e) (fun _ =>
  ret d)))).

Definition ex_model : GraphModule Z :=
  mkGraphModule
    {[ POSITIONS_KEY := Some Irreps_1o; CELL_KEY := None ]}
    {[ TOTAL_ENERGY_KEY := Some Irreps_0e ]}
    ex_forward.

(** A differentiation engine that answers every request: the gradient
    with respect to the [i]-th input has the elements [100 i + j + 1]. *)
Definition ex_autograd (h : heap Z) (out : Tensor Z) (inputs : list nat)
    (create_graph : bool) : result (nat -> option (bool * (nat -> Z))) :=
  Ok (fun i => Some (create_graph, fun j => Z.of_nat (100 * i + j + 1))).

(** An engine for which the [k]-th input is not connected to the output. *)
Definition ex_autograd_without (k : nat) (h : heap Z) (out : Tensor Z)
    (inputs : list nat) (create_graph : bool)
    : result (nat -> option (bool * (nat -> Z))) :=
  Ok (fun i => if i =? k then None
               else Some (create_graph, fun j => Z.of_nat (100 * i + j + 1))).

(** The wrappers built from the model. *)
Definition ex_stress_model : GraphModule Z :=
  mkGraphModule (<[DISPLACEMENT := None]> (gm_irreps_in ex_model))
    (gm_irreps_out ex_model) ex_forward.

Definition ex_grad : GradientOutput Z :=
  mkGradientOutput 1 false TOTAL_ENERGY_KEY [POSITIONS_KEY; DISPLACEMENT]
    ex_stress_model [FORCE_KEY; STRESS_KEY]
    (gm_irreps_in ex_stress_model)
    ({[ FORCE_KEY := Some Irreps_1o; STRESS_KEY := None ]}
       ∪ (gm_irreps_out ex_model ∪ gm_irreps_in ex_stress_model))
    true.

Definition ex_stress : StressOutput Z :=
  mkStressOutput true ex_grad
    {[ POSITIONS_KEY := Some Irreps_1o; CELL_KEY := None ]}
    {[ FORCE_KEY := Some Irreps_1o; STRESS_KEY := None;
       TOTAL_ENERGY_KEY := Some Irreps_0e;
       POSITIONS_KEY := Some Irreps_1o; CELL_KEY := None ]}.

Definition ex_force (sign : Q) : GradientOutput Z :=
  mkGradientOutput sign (Qeq_bool sign (-1)) TOTAL_ENERGY_KEY [POSITIONS_KEY]
    ex_model [FORCE_KEY]
    (gm_irreps_in ex_model)
    ({[ FORCE_KEY := Some Irreps_1o ]}
       ∪ (gm_irreps_out ex_model ∪ gm_irreps_in ex_model))
    true.

(** A wrapper for the gradients with respect to positions and cell. *)
Definition ex_pair (out_field : list string) (outs : irreps_dict)
    : GradientOutput Z :=
  mkGradientOutput 1 false TOTAL_ENERGY_KEY [POSITIONS_KEY; CELL_KEY]
    ex_model out_field (gm_irreps_in ex_model)
    (outs ∪ (gm_irreps_out ex_model ∪ gm_irreps_in ex_model)) true.

(** The runs of the instance. *)
Definition ex_stress_run : heap Z * result nat :=
  StressOutput_forward ex_autograd ex_stress 0 ex_heap.

Definition ex_perturbed : heap Z * result (nat * Z * nat) :=
  StressOutput_perturb 0 ex_heap.

Definition ex_positions : Tensor Z :=
  mkTensor [2; 3] (Floats [1; 2; 3; 4; 5; 6]%Z) false.

Definition ex_cell : Tensor Z :=
  mkTensor [3; 3] (Floats [2; 0; 0; 0; 3; 0; 0; 0; 4]%Z) false.

Definition ex_failed_run : heap Z * result nat :=
  StressOutput_forward (ex_autograd_without 1) ex_stress 0 ex_heap.

Definition ex_force_run (sign : Q) : heap Z * result nat :=
  GradientOutput_forward ex_autograd (ex_force sign) 0 ex_heap.

Definition ex_disconnected_run (k : nat) : heap Z * result nat :=
  GradientOutput_forward (ex_autograd_without k)
    (ex_pair ["dx"; "dc"] {[ "dx" := Some Irreps_1o; "dc" := None ]}) 0 ex_heap.

(** The restoring of the flags as the specification words it: on every
    exit of [forward], each field named in [wrt] has the flag it had
    before the call.  On the failure path no state is returned, so the
    fields are those of the state that the caller passed. *)
Definition flags_restored_on_every_exit {R} `{Scalar R}
    (autograd_grad : heap R -> Tensor R -> list nat -> bool ->
                     result (nat -> option (bool * (nat -> R)))) : Prop :=
  forall (self : GradientOutput R) data (h h' : heap R) r k,
    GradientOutput_forward autograd_grad self data h = (h', r) ->
    k ∈ wrt self ->
    field_flag h' data k = field_flag h data k.

(** A decidable form of [state_wf]. *)
Definition state_wfb {R} (h : heap R) (d : nat) : bool :=
  match dicts h !! d with
  | Some m => forallb (fun ka : string * nat => ka.2 <? length (tensors h)) (map_to_list m)
  | None => true
  end.

(** * Properties *)

Section Properties.
Context {R : Type} `{Scalar R}.
Variable autograd_grad :
  heap R -> Tensor R -> list nat -> bool ->
  result (nat -> option (bool * (nat -> R))).
Variable _init_irreps :
  irreps_dict -> irreps_dict -> irreps_dict -> result (irreps_dict * irreps_dict).

(** ** Inversion of monadic computations *)

Lemma bind_Ok {A B} (m : M R A) (k : A -> M R B) (h h' : heap R) (b : B) :
  bind m k h = (h', Ok b) ->
  exists a h1, m h = (h1, Ok a) /\ k a h1 = (h', Ok b).
Proof.
  unfold bind. destruct (m h) as [h1 [a|e]] eqn:E; intros Hk; [eauto | discriminate].
Qed.

Lemma bind_Raise {A B} (m : M R A) (k : A -> M R B) (h h' : heap R) (e : exn) :
  bind m k h = (h', Raise e) ->
  m h = (h', Raise e) \/ exists a h1, m h = (h1, Ok a) /\ k a h1 = (h', Raise e).
Proof.
  unfold bind. destruct (m h) as [h1 [a|e']] eqn:E; intros Hk; [right; eauto | left; congruence].
Qed.

Lemma ret_Ok {A} (a b : A) (h h' : heap R) : ret a h = (h', Ok b) -> h' = h /\ b = a.
Proof. unfold ret. intros [= <- <-]. done. Qed.

Lemma lift_Ok {A} (r : result A) (b : A) (h h' : heap R) :
  lift r h = (h', Ok b) -> h' = h /\ r = Ok b.
Proof. unfold lift. intros [= <- <-]. done. Qed.

Lemma tensor_at_Ok a (h h' : heap R) t :
  tensor_at a h = (h', Ok t) -> h' = h /\ tensors h !! a = Some t.
Proof.
  unfold tensor_at. destruct (tensors h !! a) eqn:E; intros [= <- <-]; done.
Qed.

Lemma getitem_Ok d k (h h' : heap R) a :
  getitem d k h = (h', Ok a) -> h' = h /\ dict_at h d k = Some a.
Proof.
  unfold getitem, dict_at. destruct (dicts h !! d) as [m|]; [|discriminate].
  destruct (m !! k); intros [= <- <-]; done.
Qed.

Lemma setitem_Ok d k a (h h' : heap R) u :
  setitem d k a h = (h', Ok u) ->
  exists m, dicts h !! d = Some m /\
    h' = mkHeap (tensors h) (<[d := <[k := a]> m]> (dicts h)).
Proof.
  unfold setitem. destruct (dicts h !! d) as [m|]; [|discriminate].
  intros [= <-]. eauto.
Qed.

Lemma delitem_Ok d k (h h' : heap R) u :
  delitem d k h = (h', Ok u) ->
  exists m, dicts h !! d = Some m /\
    h' = mkHeap (tensors h) (<[d := delete k m]> (dicts h)).
Proof.
  unfold delitem. destruct (dicts h !! d) as [m|]; [|discriminate].
  destruct (m !! k); [|discriminate]. intros [= <-]. eauto.
Qed.

Lemma new_tensor_Ok t (h h' : heap R) a :
  new_tensor t h = (h', Ok a) ->
  a = length (tensors h) /\ h' = mkHeap (tensors h ++ [t]) (dicts h).
Proof. unfold new_tensor. intros [= <- <-]. done. Qed.

Lemma requires_grad__Ok a b (h h' : heap R) u :
  requires_grad_ a b h = (h', Ok u) ->
  exists t, tensors h !! a = Some t /\
    h' = mkHeap (<[a := mkTensor (shape t) (elems t) b]> (tensors h)) (dicts h).
Proof.
  unfold requires_grad_. destruct (tensors h !! a) as [t|]; [|discriminate].
  destruct (elems t) eqn:E, b; try discriminate; intros [= <-];
    exists t; rewrite E; done.
Qed.

(** Break a successful run into the successful runs of its steps. *)
Ltac inv_run :=
  repeat match goal with
  | Hr : bind _ _ _ = (_, Ok _) |- _ =>
      let a := fresh "a" in let h1 := fresh "h" in
      let H1 := fresh "Hr" in let H2 := fresh "Hr" in
      apply bind_Ok in Hr as (a & h1 & H1 & H2)
  | Hr : ret _ _ = (_, Ok ?b) |- _ =>
      first [ is_var b; apply ret_Ok in Hr as [-> ->]
            | lazymatch b with tt => apply ret_Ok in Hr as [-> _] end ]
  | Hr : lift _ _ = (_, Ok _) |- _ => apply lift_Ok in Hr as [-> Hr]
  | Hr : tensor_at _ _ = (_, Ok _) |- _ => apply tensor_at_Ok in Hr as [-> Hr]
  | Hr : getitem _ _ _ = (_, Ok _) |- _ => apply getitem_Ok in Hr as [-> Hr]
  | Hr : raise _ _ = (_, Ok _) |- _ => discriminate Hr
  | Hr : new_tensor _ _ = (_, Ok _) |- _ => apply new_tensor_Ok in Hr as [-> ->]
  | Hr : requires_grad_ _ _ _ = (_, Ok _) |- _ =>
      let t := fresh "t" in let Ht := fresh "Ht" in
      apply requires_grad__Ok in Hr as (t & Ht & ->)
  | Hr : setitem _ _ _ _ = (_, Ok _) |- _ =>
      let m := fresh "m" in let Hm := fresh "Hm" in
      apply setitem_Ok in Hr as (m & Hm & ->)
  | Hr : delitem _ _ _ = (_, Ok _) |- _ =>
      let m := fresh "m" in let Hm := fresh "Hm" in
      apply delitem_Ok in Hr as (m & Hm & ->)
  end;
  cbn [tensors dicts] in *.

(** ** Frame reasoning: what a run keeps, however it ends *)

Section Frame.
Variable P : heap R -> Prop.
Variable W : string -> Prop.
Hypothesis HP : stable P W.

Lemma preserves_bind {A B} (m : M R A) (k : A -> M R B) :
  preserves P m -> (forall a, preserves P (k a)) -> preserves P (bind m k).
Proof.
  intros Hm Hk h h' r. unfold bind. destruct (m h) as [h1 [a|e]] eqn:E.
  - intros Hr HPh. eapply Hk; eauto.
  - intros [= <- <-] HPh. eapply Hm; eauto.
Qed.

Lemma preserves_ret {A} (a : A) : preserves P (ret a).
Proof. intros h h' r [= <- <-]. done. Qed.

Lemma preserves_raise {A} e : preserves P (raise (A:=A) e).
Proof. intros h h' r [= <- <-]. done. Qed.

Lemma preserves_lift {A} (x : result A) : preserves P (lift x).
Proof. intros h h' r [= <- <-]. done. Qed.

Lemma preserves_tensor_at a : preserves P (tensor_at a).
Proof.
  intros h h' r. unfold tensor_at.
  destruct (tensors h !! a); intros [= <- <-]; done.
Qed.

Lemma preserves_getitem d k : preserves P (getitem d k).
Proof.
  intros h h' r. unfold getitem.
  destruct (dicts h !! d) as [m|]; [destruct (m !! k)|]; intros [= <- <-]; done.
Qed.

Lemma preserves_contains d k : preserves P (contains d k).
Proof.
  intros h h' r. unfold contains.
  destruct (dicts h !! d) as [m|]; intros [= <- <-]; done.
Qed.

Lemma preserves_new_tensor t : preserves P (new_tensor t).
Proof. intros h h' r [= <- <-] HPh. by apply (stable_alloc P W). Qed.

Lemma preserves_requires_grad_ a b :
  flag_stable P -> preserves P (requires_grad_ a b).
Proof.
  intros HF h h' r. unfold requires_grad_.
  destruct (tensors h !! a) as [t|] eqn:E; [|intros [= <- <-]; done].
  destruct (elems t) eqn:Et, b; intros [= <- <-] HPh; try done;
    rewrite <- Et; by apply HF.
Qed.

Lemma preserves_setitem d k a : W k -> preserves P (setitem d k a).
Proof.
  intros HW h h' r. unfold setitem.
  destruct (dicts h !! d) as [m|] eqn:E; intros [= <- <-] HPh; [|done].
  by apply (stable_set P W).
Qed.

Lemma preserves_delitem d k : W k -> preserves P (delitem d k).
Proof.
  intros HW h h' r. unfold delitem.
  destruct (dicts h !! d) as [m|] eqn:E; [|intros [= <- <-]; done].
  destruct (m !! k); intros [= <- <-] HPh; [|done].
  by apply (stable_del P W).
Qed.

Ltac frame :=
  repeat first
    [ apply preserves_bind; [|intros ?]
    | apply preserves_ret
    | apply preserves_raise
    | apply preserves_lift
    | apply preserves_tensor_at
    | apply preserves_getitem
    | apply preserves_contains
    | apply preserves_new_tensor
    | apply preserves_requires_grad_; [assumption]
    | apply preserves_setitem; [solve [auto]]
    | apply preserves_delitem; [solve [auto]]
    | match goal with
      | |- preserves _ (if ?c then _ else _) => destruct c
      | |- preserves _ (match ?c with _ => _ end) => destruct c
      end
    | assumption ].

Lemma preserves_set_requires_grad data ks :
  flag_stable P -> preserves P (set_requires_grad data ks).
Proof. intros HF. induction ks as [|k ks IH]; simpl; frame. Qed.

Lemma preserves_alloc_grads l : preserves P (alloc_grads l).
Proof. induction l as [|[a [[rg g]|]] l IH]; simpl; frame. Qed.

Lemma preserves_grad out inputs create_graph :
  preserves P (grad autograd_grad out inputs create_graph).
Proof.
  intros h h' r. unfold grad.
  destruct (autograd_grad h out inputs create_graph) as [gs|e].
  - apply preserves_alloc_grads.
  - intros [= <- <-]. done.
Qed.

Lemma preserves_write_grads data negate l :
  (forall out, out ∈ l.*1 -> W out) ->
  preserves P (write_grads data negate l).
Proof.
  induction l as [|[out [g|]] l IH]; simpl; intros HW; frame.
  - apply preserves_setitem, HW. by left.
  - apply IH. intros out' Hin. apply HW. by right.
Qed.

Lemma preserves_unset_requires_grad data l :
  flag_stable P -> preserves P (unset_requires_grad data l).
Proof. intros HF. induction l as [|[b k] l IH]; simpl; frame. Qed.

Lemma preserves_GradientOutput_forward (self : GradientOutput R) data :
  flag_stable P ->
  preserves P (gm_forward (func self) data) ->
  (forall out, out ∈ out_field self -> W out) ->
  preserves P (GradientOutput_forward autograd_grad self data).
Proof.
  intros HF Hf HW. unfold GradientOutput_forward. frame.
  - by apply preserves_set_requires_grad.
  - apply preserves_grad.
  - apply preserves_write_grads. intros out Hin. apply HW.
    apply list_elem_of_fmap in Hin as [[o g] [-> Hin]].
    by apply elem_of_zip_l in Hin.
  - by apply preserves_unset_requires_grad.
Qed.

Lemma preserves_with_batch data :
  W BATCH_KEY -> preserves P (with_batch data).
Proof. intros HW. unfold with_batch. frame. Qed.

Lemma preserves_StressOutput_perturb data :
  flag_stable P ->
  W BATCH_KEY -> W CELL_KEY -> W DISPLACEMENT -> W POSITIONS_KEY ->
  preserves P (StressOutput_perturb data).
Proof.
  intros HF HW1 HW2 HW3 HW4. unfold StressOutput_perturb. frame.
Qed.

Lemma preserves_StressOutput_finish data num_batch c :
  W FORCE_KEY -> W STRESS_KEY -> W DISPLACEMENT ->
  preserves P (StressOutput_finish data num_batch c).
Proof. intros HW1 HW2 HW3. unfold StressOutput_finish. frame. Qed.

End Frame.

(** Two instances: the binding of a field that is not written, and the
    shape and elements of the objects of a given heap. *)
Lemma flag_stable_dicts (P : list (gmap string nat) -> Prop) :
  flag_stable (fun h : heap R => P (dicts h)).
Proof. by intros h a t b Ht HP. Qed.

Lemma stable_dict_at d k v :
  stable (fun h : heap R => dict_at h d k = v) (fun k' => k' ≠ k).
Proof.
  split; try done.
  - intros h d' m k' a Hne Hm. unfold dict_at. simpl.
    destruct (decide (d' = d)) as [->|Hd].
    + rewrite list_lookup_insert_eq, Hm by (by eapply lookup_lt_Some).
      by rewrite lookup_insert_ne.
    + by rewrite list_lookup_insert_ne.
  - intros h d' m k' Hne Hm. unfold dict_at. simpl.
    destruct (decide (d' = d)) as [->|Hd].
    + rewrite list_lookup_insert_eq, Hm by (by eapply lookup_lt_Some).
      by rewrite lookup_delete_ne.
    + by rewrite list_lookup_insert_ne.
Qed.

Lemma keeps_tensors_refl (h : heap R) : keeps_tensors h h.
Proof. intros a t Ha. eauto. Qed.

Lemma keeps_tensors_trans (h1 h2 h3 : heap R) :
  keeps_tensors h1 h2 -> keeps_tensors h2 h3 -> keeps_tensors h1 h3.
Proof.
  intros H12 H23 a t Ha.
  destruct (H12 a t Ha) as (t2 & Ha2 & Hs2 & He2).
  destruct (H23 a t2 Ha2) as (t3 & Ha3 & Hs3 & He3).
  exists t3. split; [done|]. split; congruence.
Qed.

Lemma stable_keeps_tensors (h0 : heap R) :
  stable (keeps_tensors h0) (fun _ => True).
Proof.
  split; try done.
  intros h t Hk a t0 Ha. destruct (Hk a t0 Ha) as (t' & Ha' & Hs).
  exists t'. split; [|done]. simpl. by apply lookup_app_l_Some.
Qed.

Lemma flag_stable_keeps_tensors (h0 : heap R) : flag_stable (keeps_tensors h0).
Proof.
  - intros h a t b Ha Hk a0 t0 Ha0. destruct (Hk a0 t0 Ha0) as (t' & Ha' & Hs & He).
    simpl. destruct (decide (a = a0)) as [->|Hne].
    + rewrite list_lookup_insert_eq by (by eapply lookup_lt_Some).
      eexists. split; [done|]. simpl. split; congruence.
    + rewrite list_lookup_insert_ne by done. eauto.
Qed.

(** ** The three loops of [GradientOutput.forward] *)

Lemma Forall2_impl_elem {A B} (P Q : A -> B -> Prop) (l1 : list A) (l2 : list B) :
  Forall2 P l1 l2 ->
  (forall x y, x ∈ l1 -> P x y -> Q x y) ->
  Forall2 Q l1 l2.
Proof.
  induction 1 as [|x y l1 l2 Hxy Hl IH]; intros Himp; constructor.
  - apply Himp; [by left | done].
  - apply IH. intros x' y' Hin. apply Himp. by right.
Qed.

Lemma field_flag_dicts (h h' : heap R) d k a :
  dict_at h d k = Some a ->
  dicts h' = dicts h -> tensors h' !! a = tensors h !! a ->
  field_flag h' d k = field_flag h d k.
Proof.
  intros Ha Hd Ht. unfold field_flag, state_tensor.
  replace (dict_at h' d k) with (dict_at h d k) by (unfold dict_at; by rewrite Hd).
  by rewrite Ha, Ht.
Qed.

Lemma no_alias_dicts (h h' : heap R) d ks :
  dicts h' = dicts h -> no_alias h d ks -> no_alias h' d ks.
Proof.
  intros Hd Hn k1 k2 a H1 H2. unfold dict_at. rewrite Hd. by apply Hn.
Qed.

Lemma no_alias_cons (h : heap R) d k ks :
  no_alias h d (k :: ks) -> no_alias h d ks.
Proof. intros Hn k1 k2 a H1 H2. apply Hn; by right. Qed.

Lemma stable_dicts (ds : list (gmap string nat)) :
  stable (fun h : heap R => dicts h = ds) (fun _ => False).
Proof. split; [done | intros ? ? ? ? ? [] | intros ? ? ? ? []]. Qed.

Lemma set_requires_grad_dicts data ks (h h1 : heap R) r :
  set_requires_grad data ks h = (h1, r) -> dicts h1 = dicts h.
Proof.
  intros Hr.
  exact (preserves_set_requires_grad (fun h0 => dicts h0 = dicts h) data ks
           (flag_stable_dicts (fun ds => ds = dicts h)) h h1 r Hr eq_refl).
Qed.

(** The first loop records, for duplicate-free fields that name distinct
    objects, the flag that each field has on entry. *)
Lemma set_requires_grad_olds data ks (h h1 : heap R) olds :
  set_requires_grad data ks h = (h1, Ok olds) ->
  NoDup ks -> no_alias h data ks ->
  Forall2 (fun k b => field_flag h data k = Some b) ks olds.1.
Proof.
  revert h h1 olds. induction ks as [|k ks IH]; simpl; intros h h1 olds Hr Hnd Hna.
  - inv_run. constructor.
  - inv_run. assert (t = a0) as -> by congruence. simpl.
    apply NoDup_cons in Hnd as [Hk Hnd].
    constructor.
    + unfold field_flag, state_tensor. by rewrite Hr0, Hr.
    + eapply Forall2_impl_elem.
      * eapply IH; [done|done|].
        eapply no_alias_dicts; [|by eapply no_alias_cons]. done.
      * intros k' b Hin Hf. simpl in Hf. rewrite <- Hf. symmetry.
        unfold field_flag, state_tensor, dict_at. simpl.
        destruct (dicts h !! data) as [m|] eqn:Hm; [|done].
        destruct (m !! k') as [a'|] eqn:Hk'; [|done].
        rewrite list_lookup_insert_ne; [done|].
        intros <-. apply Hk.
        replace k with k'; [done|].
        apply (Hna k' k a); [by right | by left | |done].
        unfold dict_at. by rewrite Hm.
Qed.

Lemma set_requires_grad_length data ks (h h1 : heap R) olds :
  set_requires_grad data ks h = (h1, Ok olds) ->
  length olds.1 = length ks /\ length olds.2 = length ks.
Proof.
  revert h h1 olds. induction ks as [|k ks IH]; simpl; intros h h1 olds Hr.
  - inv_run. done.
  - inv_run. simpl. apply IH in Hr2 as [-> ->]. done.
Qed.

Lemma unset_requires_grad_dicts data l (h h' : heap R) r :
  unset_requires_grad data l h = (h', r) -> dicts h' = dicts h.
Proof.
  intros Hr.
  exact (preserves_unset_requires_grad (fun h0 => dicts h0 = dicts h) data l
           (flag_stable_dicts (fun ds => ds = dicts h)) h h' r Hr eq_refl).
Qed.

(** The third loop leaves alone the objects that its fields do not name. *)
Lemma unset_requires_grad_other data l (h h' : heap R) u a :
  unset_requires_grad data l h = (h', Ok u) ->
  (forall k, k ∈ l.*2 -> dict_at h data k ≠ Some a) ->
  tensors h' !! a = tensors h !! a.
Proof.
  revert h. induction l as [|[b k] l IH]; simpl; intros h Hr Hne.
  - inv_run. done.
  - inv_run. erewrite IH; [| done |].
    + simpl. apply list_lookup_insert_ne. intros ->. apply (Hne k); [by left|done].
    + intros k' Hin. unfold dict_at. simpl. apply Hne. by right.
Qed.

(** The third loop gives each field its recorded flag back, for
    duplicate-free fields that name distinct objects. *)
Lemma unset_requires_grad_flags data l (h h' : heap R) u :
  unset_requires_grad data l h = (h', Ok u) ->
  NoDup l.*2 -> no_alias h data l.*2 ->
  forall b k, (b, k) ∈ l -> field_flag h' data k = Some b.
Proof.
  revert h. induction l as [|[b0 k0] l IH]; simpl; intros h Hr Hnd Hna b k Hin.
  - by apply elem_of_nil in Hin.
  - inv_run. apply NoDup_cons in Hnd as [Hk0 Hnd].
    set (h1 := mkHeap (<[a := mkTensor (shape t) (elems t) b0]> (tensors h)) (dicts h)) in *.
    assert (Hna1 : no_alias h1 data l.*2).
    { eapply (no_alias_dicts h); [done|]. by eapply no_alias_cons. }
    apply elem_of_cons in Hin as [[= -> ->]|Hin]; [|by eapply IH].
    pose proof (unset_requires_grad_dicts _ _ _ _ _ Hr2) as Hd.
    unfold field_flag, state_tensor, dict_at. rewrite Hd. simpl.
    unfold dict_at in Hr0. rewrite Hr0.
    erewrite unset_requires_grad_other; [| done |].
    + simpl. rewrite list_lookup_insert_eq by (by eapply lookup_lt_Some). done.
    + intros k' Hin' Hk'. apply Hk0.
      replace k0 with k'; [done|].
      apply (Hna k' k0 a); [by right | by left | done | done].
Qed.

Lemma GradientOutput_forward_Ok (self : GradientOutput R) data (h h' : heap R) d' :
  GradientOutput_forward autograd_grad self data h = (h', Ok d') ->
  exists h1 olds h2 et h3 gs h4,
    set_requires_grad data (wrt self) h = (h1, Ok olds) /\
    gm_forward (func self) data h1 = (h2, Ok d') /\
    state_tensor h2 d' (of_ self) = Some et /\
    grad autograd_grad (tsum et) olds.2 (training self) h2 = (h3, Ok gs) /\
    write_grads d' (_negate self) (zip (out_field self) gs) h3 = (h4, Ok tt) /\
    unset_requires_grad d' (zip olds.1 (wrt self)) h4 = (h', Ok tt).
Proof.
  unfold GradientOutput_forward. intros Hr. inv_run.
  repeat match goal with u : () |- _ => destruct u end.
  do 7 eexists. split; [eassumption|]. split; [eassumption|].
  split; [|split; [eassumption|split; eassumption]].
  unfold state_tensor. rewrite Hr1. eassumption.
Qed.

(** ** Element-wise reading of the tensor operations *)

Lemma nth_map_seq {B} (g : nat -> B) (k j : nat) (d : B) :
  j < k -> nth j (map g (seq 0 k)) d = g j.
Proof.
  intros Hj. rewrite (nth_indep _ d (g 0)) by (by rewrite length_map, length_seq).
  rewrite map_nth, seq_nth by done. done.
Qed.

Lemma length_flat_map_uniform {A B} (f : A -> list B) (k : nat) (l : list A) :
  (forall y, length (f y) = k) -> length (flat_map f l) = length l * k.
Proof.
  intros Hlen. induction l as [|y l IH]; simpl; [done|].
  rewrite length_app, Hlen, IH. done.
Qed.

Lemma nth_flat_map_uniform {A B} (f : A -> list B) (k : nat) (l : list A)
    (d : B) (i j : nat) (x : A) :
  (forall y, length (f y) = k) -> j < k -> l !! i = Some x ->
  nth (i * k + j) (flat_map f l) d = nth j (f x) d.
Proof.
  intros Hlen Hj. revert i. induction l as [|y l IH]; intros i Hi; [done|].
  simpl. destruct i as [|i]; simpl in *.
  - injection Hi as ->. apply app_nth1. rewrite Hlen. lia.
  - rewrite app_nth2 by (rewrite Hlen; lia). rewrite Hlen.
    replace (k + i * k + j - k) with (i * k + j) by lia. by apply IH.
Qed.

Lemma numel_app (s1 s2 : list nat) : numel (s1 ++ s2) = numel s1 * numel s2.
Proof.
  unfold numel. induction s1 as [|a s1 IH]; simpl; [lia|]. rewrite IH. lia.
Qed.

Lemma numel_rev (s : list nat) : numel (rev s) = numel s.
Proof.
  induction s as [|a s IH]; simpl; [done|].
  rewrite numel_app, IH. unfold numel. simpl. lia.
Qed.

Lemma broadcast_rev_same (s : list nat) : broadcast_rev s s = Some s.
Proof.
  induction s as [|a s IH]; simpl; [done|]. by rewrite IH, Nat.eqb_refl.
Qed.

Lemma bc_index_same (s : list nat) (i : nat) :
  i < numel s -> bc_index s s i = i.
Proof.
  revert i. induction s as [|n s IH]; intros i Hi.
  - unfold numel in Hi. simpl in *. lia.
  - change (numel (n :: s)) with (n * numel s) in Hi.
    assert (n ≠ 0) by (intros ->; lia).
    assert (i / n < numel s) by (apply Nat.Div0.div_lt_upper_bound; lia).
    simpl. rewrite IH by done.
    destruct (n =? 1) eqn:E.
    + apply Nat.eqb_eq in E as ->. rewrite Nat.div_1_r. lia.
    + pose proof (Nat.div_mod_eq i n). lia.
Qed.

(** Same-shape element-wise operation. *)
Lemma binop_same_shape (f : R -> R -> R) (a b r : Tensor R) :
  binop f a b = Ok r -> shape b = shape a ->
  shape r = shape a /\
  requires_grad r = requires_grad a || requires_grad b /\
  forall i, i < numel (shape a) ->
    fget (floats r) i = f (fget (floats a) i) (fget (floats b) i).
Proof.
  unfold binop, floats. intros Hr Hs.
  destruct (elems a) as [xs|]; [|done]. destruct (elems b) as [ys|]; [|done].
  rewrite Hs, broadcast_rev_same in Hr. injection Hr as <-. simpl.
  rewrite rev_involutive. split; [done|]. split; [done|].
  intros i Hi. unfold fget at 1.
  rewrite nth_map_seq by (by rewrite numel_rev).
  by rewrite bc_index_same by (by rewrite numel_rev).
Qed.

(** Batched matrix product, element by element. *)
Lemma bmm_spec (a b r : Tensor R) :
  bmm a b = Ok r ->
  exists B n m p xs ys,
    shape a = [B; n; m] /\ shape b = [B; m; p] /\ shape r = [B; n; p] /\
    elems a = Floats xs /\ elems b = Floats ys /\
    requires_grad r = requires_grad a || requires_grad b /\
    forall i j c, i < B -> j < n -> c < p ->
      at3 r i j c = sum_list (map (fun k => s_mul (at3 a i j k) (at3 b i k c)) (seq 0 m)).
Proof.
  unfold bmm. intros Hr.
  destruct (shape a) as [|B [|n [|m [|]]]] eqn:Ha; try done.
  destruct (shape b) as [|B' [|m' [|p [|]]]] eqn:Hb; try done.
  destruct (elems a) as [xs|] eqn:Ea; [|done].
  destruct (elems b) as [ys|] eqn:Eb; [|done].
  destruct (B =? B') eqn:EB; [|done]. destruct (m =? m') eqn:Em; [|done].
  apply Nat.eqb_eq in EB as <-. apply Nat.eqb_eq in Em as <-.
  injection Hr as <-. exists B, n, m, p, xs, ys.
  repeat split; try done.
  intros i j c Hi Hj Hc. unfold at3, floats. simpl. rewrite Ha, Hb, Ea, Eb.
  unfold fget at 1.
  replace ((i * n + j) * p + c) with (i * (n * p) + (j * p + c)) by lia.
  erewrite nth_flat_map_uniform with (k := n * p) (x := i).
  - erewrite nth_flat_map_uniform with (k := p) (x := j).
    + by rewrite nth_map_seq.
    + intros y. by rewrite length_map, length_seq.
    + done.
    + by apply lookup_seq.
  - intros y. erewrite length_flat_map_uniform with (k := p).
    + by rewrite length_seq.
    + intros z. by rewrite length_map, length_seq.
  - nia.
  - by apply lookup_seq.
Qed.

Lemma view_expand_shape (cell0 viewed cellref : Tensor R) (num_batch : Z) :
  view_m33 cell0 = Ok viewed -> expand_n33 viewed num_batch = Ok cellref ->
  (0 <= num_batch)%Z ->
  shape cellref = [Z.to_nat num_batch; 3; 3].
Proof.
  unfold view_m33, expand_n33. intros Hv He Hnb.
  destruct (_ =? 0); [|done]. injection Hv as <-. simpl in He.
  destruct (num_batch =? -1)%Z eqn:E1; [lia|].
  destruct (num_batch <? 0)%Z eqn:E2; [lia|].
  destruct (_ =? Z.to_nat num_batch) eqn:E3.
  - apply Nat.eqb_eq in E3. injection He as <-. simpl. by rewrite E3.
  - destruct (_ =? 1); [|done]. by injection He as <-.
Qed.

Lemma zeros_n33_spec (num_batch : Z) (like zeros : Tensor R) :
  zeros_n33 num_batch like = Ok zeros ->
  (0 <= num_batch)%Z /\ shape zeros = [Z.to_nat num_batch; 3; 3] /\
  forall zs, elems zeros = Floats zs -> zs = repeat s_zero (Z.to_nat num_batch * 9).
Proof.
  unfold zeros_n33. destruct (num_batch <? 0)%Z eqn:E; [done|].
  intros [= <-]. split; [lia|]. split; [done|]. simpl.
  destruct (elems like); intros zs [= <-]; done.
Qed.

Lemma fget_repeat_zero (n i : nat) : fget (repeat s_zero n) i = s_zero.
Proof.
  unfold fget. destruct (decide (i < n)) as [Hi|Hi].
  - by apply nth_repeat_lt.
  - apply nth_overflow. rewrite repeat_length. lia.
Qed.

(** Selection along the first dimension of a (N, 3, 3) tensor. *)
Lemma index_first_spec (D idx r : Tensor R) (N : nat) (zs : list R) :
  index_first D idx = Ok r -> shape D = [N; 3; 3] -> elems D = Floats zs ->
  exists js ks,
    elems idx = Longs js /\ Forall2 (fun b bi => norm_index N b = Some bi) js ks /\
    shape r = shape idx ++ [3; 3] /\ requires_grad r = requires_grad D /\
    elems r = Floats (flat_map (fun j => map (fun c => nth (j * 9 + c) zs s_zero)
                                             (seq 0 9)) ks).
Proof.
  unfold index_first. intros Hr Hs He. rewrite Hs in Hr.
  destruct (elems idx) as [|js]; [done|].
  destruct (mapM (norm_index N) js) as [ks|] eqn:Hm; [|done].
  injection Hr as <-. exists js, ks. apply mapM_Some in Hm.
  rewrite He. done.
Qed.

Lemma unsqueeze_bmm_shape (pos row_pos : Tensor R) (B n m : nat) :
  unsqueeze_m2 pos = Ok row_pos -> shape row_pos = [B; n; m] ->
  shape pos = [B; m] /\ n = 1 /\ elems row_pos = elems pos /\
  requires_grad row_pos = requires_grad pos.
Proof.
  unfold unsqueeze_m2. intros Hr Hs.
  destruct (rev (shape pos)) as [|last front] eqn:E; [done|].
  injection Hr as <-. simpl in Hs.
  apply (f_equal (@rev nat)) in E. rewrite rev_involutive in E. simpl in E.
  destruct (rev front) as [|x [|y l]] eqn:Ef; simpl in *; try done.
  - injection Hs as -> -> ->. by rewrite E.
  - destruct l as [|z l]; simpl in Hs; [done|].
    injection Hs as _ _ _ Hs. destruct l; done.
Qed.

Lemma squeeze_m2_spec (prod shift : Tensor R) (B m : nat) :
  squeeze_m2 prod = Ok shift -> shape prod = [B; 1; m] ->
  shape shift = [B; m] /\ elems shift = elems prod /\
  requires_grad shift = requires_grad prod.
Proof.
  unfold squeeze_m2. intros Hr Hs. rewrite Hs in Hr. simpl in Hr.
  by injection Hr as <-.
Qed.

(** The perturbed positions, atom by atom: [p + p·S(config)], where
    [strain] is the strain selected by the batch index, one matrix per
    atom. *)
Lemma perturbed_positions (pos batch D row_pos strain prod shift new_pos : Tensor R)
    (N : nat) (zs : list R) :
  shape D = [N; 3; 3] -> elems D = Floats zs ->
  unsqueeze_m2 pos = Ok row_pos -> index_first D batch = Ok strain ->
  bmm row_pos strain = Ok prod -> squeeze_m2 prod = Ok shift ->
  binop s_add pos shift = Ok new_pos ->
  exists n js,
    shape pos = [n; 3] /\ shape batch = [n] /\ elems batch = Longs js /\
    shape new_pos = [n; 3] /\
    requires_grad new_pos
    = requires_grad pos || (requires_grad pos || requires_grad D) /\
    (forall i c, i < n -> c < 3 ->
      at2 new_pos i c
      = s_add (at2 pos i c)
          (sum_list (map (fun k => s_mul (at2 pos i k) (at3 strain i k c)) (seq 0 3)))) /\
    (forall i b, js !! i = Some b ->
      exists bi, norm_index N b = Some bi /\
        forall k c, k < 3 -> c < 3 -> at3 strain i k c = at3 D bi k c) /\
    ((forall j, nth j zs s_zero = s_zero) ->
     forall i k c, at3 strain i k c = s_zero).
Proof.
  intros HsD HeD Hus Hidx Hbmm Hsq Hadd.
  destruct (index_first_spec _ _ _ _ _ Hidx HsD HeD)
    as (js & ks & Hjs & Hks & Hss & Hrs & Hes).
  destruct (bmm_spec _ _ _ Hbmm)
    as (B & n & m & p & xs & ys & Ha & Hb & Hp & Exs & Eys & Hrg & Hval).
  destruct (unsqueeze_bmm_shape _ _ _ _ _ Hus Ha) as (Hpos & -> & Eus & Rus).
  rewrite Hss in Hb.
  destruct (shape batch) as [|n' [|n'' l]] eqn:Hsb; simpl in Hb; try done.
  2: { destruct l as [|z l]; simpl in Hb; [done|].
       injection Hb as _ _ _ Hb. destruct l; done. }
  injection Hb as -> <- <-.
  destruct (squeeze_m2_spec _ _ _ _ Hsq Hp) as (Hsh & Esh & Rsh).
  destruct (binop_same_shape _ _ _ _ Hadd) as (Hnp & Rnp & Hnv); [congruence|].
  exists B, js. repeat split; try done; try congruence.
  - intros i c Hi Hc.
    unfold at2 at 1. rewrite Hnp, Hpos, Hnv by (rewrite Hpos; unfold numel; simpl; nia).
    unfold at2 at 1. rewrite Hpos. f_equal.
    specialize (Hval i 0 c Hi ltac:(lia) Hc).
    unfold at3 at 1 in Hval. rewrite Hp in Hval.
    unfold floats. rewrite Esh. fold (floats prod).
    replace (i * 3 + c) with ((i * 1 + 0) * 3 + c) by lia.
    rewrite Hval. f_equal. apply map_ext_in. intros k Hk%in_seq. f_equal.
    unfold at3, at2, floats. rewrite Ha, Hpos, Eus. f_equal. lia.
  - intros i b Hb.
    destruct (Forall2_lookup_l _ _ _ _ _ Hks Hb) as (bi & Hbi & Hn).
    exists bi. split; [done|]. intros k c Hk Hc.
    unfold at3, floats. rewrite Hss, ?Hsb, HsD, Hes, HeD. cbn [app].
    unfold fget.
    replace ((i * 3 + k) * 3 + c) with (i * 9 + (k * 3 + c)) by lia.
    erewrite nth_flat_map_uniform with (k := 9) (x := bi);
      [| intros y; by rewrite length_map, length_seq | lia | done].
    rewrite nth_map_seq by lia. f_equal. lia.
  - intros Hz i k c. unfold at3, floats. rewrite Hss, ?Hsb, Hes. cbn [app].
    unfold fget.
    destruct (nth_in_or_default ((i * 3 + k) * 3 + c)
                (flat_map (fun j => map (fun c0 => nth (j * 9 + c0) zs s_zero) (seq 0 9)) ks)
                s_zero) as [Hin| ->]; [|done].
    apply in_flat_map in Hin as (j & _ & Hin).
    apply in_map_iff in Hin as (c0 & <- & _). apply Hz.
Qed.

(** The perturbed cell, configuration by configuration: [C + C·S]. *)
Lemma perturbed_cell (cellref D prod new_cell : Tensor R) (N : nat) :
  shape cellref = [N; 3; 3] -> shape D = [N; 3; 3] ->
  bmm cellref D = Ok prod -> binop s_add cellref prod = Ok new_cell ->
  shape new_cell = [N; 3; 3] /\
  (exists xs, elems cellref = Floats xs) /\
  (exists zs, elems D = Floats zs) /\
  forall j r c, j < N -> r < 3 -> c < 3 ->
    at3 new_cell j r c
    = s_add (at3 cellref j r c)
        (sum_list (map (fun k => s_mul (at3 cellref j r k) (at3 D j k c)) (seq 0 3))).
Proof.
  intros Hs HsD Hbmm Hadd.
  destruct (bmm_spec _ _ _ Hbmm)
    as (B & n & m & p & xs & ys & Ha & Hb & Hp & Exs & Eys & Hrg & Hval).
  rewrite Hs in Ha. injection Ha as <- <- <-.
  rewrite HsD in Hb. injection Hb as <-.
  destruct (binop_same_shape _ _ _ _ Hadd) as (Hnc & _ & Hnv); [congruence|].
  split; [congruence|]. split; [eauto|]. split; [eauto|].
  intros j r c Hj Hr Hc.
  unfold at3 at 1. rewrite Hnc, Hs, Hnv by (rewrite Hs; unfold numel; simpl; nia).
  unfold at3 at 1. rewrite Hs. f_equal.
  rewrite <- (Hval j r c Hj Hr Hc). unfold at3. by rewrite Hp.
Qed.

(** A zero strain: every product vanishes and every sum is the value
    itself, provided [x * 0 = 0] and [x + 0 = x] in the scalars. *)
Lemma sum_mul_zero (Hlaws : ZeroLaws R) (f g : nat -> R) (m : nat) :
  (forall k, g k = s_zero) ->
  sum_list (map (fun k => s_mul (f k) (g k)) (seq 0 m)) = s_zero.
Proof.
  intros Hg. unfold sum_list.
  assert (Hall : forall l, fold_left s_add (map (fun k => s_mul (f k) (g k)) l) s_zero
                           = s_zero).
  { induction l as [|k l IH]; simpl; [done|].
    by rewrite Hg, (zl_mul_0_r R Hlaws), (zl_add_0_r R Hlaws). }
  apply Hall.
Qed.

Lemma at3_zeros (D : Tensor R) (n : nat) i j k :
  elems D = Floats (repeat s_zero n) -> at3 D i j k = s_zero.
Proof.
  intros He. unfold at3, floats. rewrite He.
  destruct (shape D) as [|? [|? [|? [|]]]]; try done. apply fget_repeat_zero.
Qed.

(** ** The perturbation of [StressOutput.forward] *)

Lemma lookup_snoc {A} (l : list A) (x : A) : (l ++ [x]) !! length l = Some x.
Proof. by rewrite list_lookup_middle. Qed.

Lemma insert_snoc {A} (l : list A) (x y : A) :
  <[length l := y]> (l ++ [x]) = l ++ [y].
Proof. rewrite insert_app_r_alt by lia. by rewrite Nat.sub_diag. Qed.

Lemma state_tensor_eq (h : heap R) d k a t :
  dict_at h d k = Some a -> tensors h !! a = Some t -> state_tensor h d k = Some t.
Proof. intros Ha Ht. unfold state_tensor. by rewrite Ha. Qed.

(** [with_batch] hands back the state it was given and changes nothing
    but the batch field. *)
Lemma with_batch_Ok data (h hb : heap R) d :
  with_batch data h = (hb, Ok d) ->
  d = data /\
  (forall k t, k ≠ BATCH_KEY -> state_tensor h data k = Some t ->
               state_tensor hb data k = Some t) /\
  (forall k, k ≠ BATCH_KEY -> dict_at hb data k = dict_at h data k) /\
  keeps_tensors h hb /\ length (tensors h) <= length (tensors hb).
Proof.
  unfold with_batch. intros Hr. apply bind_Ok in Hr as (has & h0 & Hc & Hr).
  assert (h0 = h) as ->.
  { unfold contains in Hc. destruct (dicts h !! data); by injection Hc. }
  destruct has.
  - inv_run. repeat split; try done. apply keeps_tensors_refl.
  - inv_run. destruct (shape a0) as [|n sh]; [inv_run|]. inv_run.
    split; [done|]. split; [|split; [|split]].
    + intros k t Hk. unfold state_tensor, dict_at. cbn [dicts tensors].
      rewrite list_lookup_insert_eq by (by eapply lookup_lt_Some).
      rewrite lookup_insert_ne by done. rewrite Hm.
      destruct (m !! k) as [a'|]; [|done]. apply lookup_app_l_Some.
    + intros k Hk. unfold dict_at. cbn [dicts].
      rewrite list_lookup_insert_eq by (by eapply lookup_lt_Some).
      rewrite lookup_insert_ne by done. by rewrite Hm.
    + intros a' t Ha'. exists t. cbn [tensors]. split; [|done].
      by apply lookup_app_l_Some.
    + cbn [tensors]. rewrite length_app. lia.
Qed.

Lemma with_batch_tensors data (h hb : heap R) d a t :
  with_batch data h = (hb, Ok d) -> tensors h !! a = Some t ->
  tensors hb !! a = Some t.
Proof.
  unfold with_batch. intros Hr Ha. apply bind_Ok in Hr as (has & h0 & Hc & Hr).
  assert (h0 = h) as ->.
  { unfold contains in Hc. destruct (dicts h !! data); by injection Hc. }
  destruct has.
  - by inv_run.
  - inv_run. destruct (shape a1) as [|n sh]; [inv_run|]. inv_run.
    by apply lookup_app_l_Some.
Qed.

(** What the perturbation computes, step by step, and the heap that it
    hands to the internal [GradientOutput]: four new objects (the per-batch
    cell, the strain, the perturbed positions and the perturbed cell) and
    three fields rebound. *)
Lemma StressOutput_perturb_Ok data (h h1 : heap R) d num_batch c pos :
  StressOutput_perturb data h = (h1, Ok (d, num_batch, c)) ->
  state_tensor h data POSITIONS_KEY = Some pos ->
  exists hb m batch cell0 viewed cellref zeros row_pos strain prod shift
         new_pos prod' new_cell,
    with_batch data h = (hb, Ok d) /\
    dicts hb !! d = Some m /\
    state_tensor hb d BATCH_KEY = Some batch /\
    long_max batch = Ok (num_batch - 1)%Z /\
    state_tensor hb d CELL_KEY = Some cell0 /\
    view_m33 cell0 = Ok viewed /\
    expand_n33 viewed num_batch = Ok cellref /\
    zeros_n33 num_batch cellref = Ok zeros /\
    state_tensor hb d POSITIONS_KEY = Some pos /\
    unsqueeze_m2 pos = Ok row_pos /\
    index_first (mkTensor (shape zeros) (elems zeros) true) batch = Ok strain /\
    bmm row_pos strain = Ok prod /\
    squeeze_m2 prod = Ok shift /\
    binop s_add pos shift = Ok new_pos /\
    bmm cellref (mkTensor (shape zeros) (elems zeros) true) = Ok prod' /\
    binop s_add cellref prod' = Ok new_cell /\
    c = length (tensors hb) /\
    tensors h1 = (tensors hb ++ [cellref; mkTensor (shape zeros) (elems zeros) true;
                                 new_pos; new_cell])%list /\
    dicts h1 = <[d := <[CELL_KEY := c + 3]> (<[POSITIONS_KEY := c + 2]>
                       (<[DISPLACEMENT := c + 1]> (<[CELL_KEY := c]> m)))]> (dicts hb).
Proof.
  unfold StressOutput_perturb. intros Hr Hpos. inv_run.
  destruct (with_batch_Ok _ _ _ _ Hr0) as (-> & Hwb & _).
  apply Hwb in Hpos; [|done]. clear Hwb.
  rewrite ?list_insert_insert_eq in *.
  assert (Hlt : data < length (dicts h0)) by (by eapply lookup_lt_Some).
  repeat match goal with
  | Hx : <[data := ?x]> (dicts h0) !! data = Some ?m |- _ =>
      rewrite list_lookup_insert_eq in Hx by done; injection Hx as <-
  end.
  rewrite lookup_snoc in Ht. injection Ht as <-.
  rewrite insert_snoc in *.
  unfold dict_at in Hr9, Hr15, Hr25. cbn [dicts] in Hr9, Hr15, Hr25.
  rewrite list_lookup_insert_eq in Hr9, Hr15, Hr25 by done.
  rewrite lookup_insert_eq in Hr9. injection Hr9 as <-.
  rewrite lookup_snoc in Hr10. injection Hr10 as <-.
  rewrite lookup_snoc in Hr17. injection Hr17 as <-.
  rewrite !lookup_insert_ne, lookup_insert_eq in Hr25 by done. injection Hr25 as <-.
  rewrite !lookup_insert_ne in Hr15 by done.
  injection Hr32 as <- <- <- <-.
  unfold state_tensor, dict_at in Hpos. rewrite Hm2, Hr15 in Hpos.
  repeat (rewrite <- app_assoc in Hr16; cbn [app] in Hr16).
  repeat (rewrite <- app_assoc in Hr26; cbn [app] in Hr26).
  rewrite lookup_app_l_Some with (x := pos) in Hr16 by done. injection Hr16 as <-.
  rewrite list_lookup_middle in Hr26 by done. injection Hr26 as <-.
  exists h0, m2, a1, a4, a5, a6, a11, a18, a19, a20, a21, a22, a27, a28.
  repeat match goal with |- _ /\ _ => split end; try done.
  - by eapply state_tensor_eq.
  - rewrite Hr2. f_equal. lia.
  - by eapply state_tensor_eq.
  - unfold state_tensor, dict_at. by rewrite Hm2, Hr15.
  - cbn [tensors]. by rewrite <- !app_assoc.
  - cbn [dicts]. rewrite !length_app. cbn [length].
    replace (length (tensors h0) + 1 + 1 + 1) with (length (tensors h0) + 3) by lia.
    replace (length (tensors h0) + 1 + 1) with (length (tensors h0) + 2) by lia.
    done.
Qed.

Lemma lookup_app_add {A} (l1 l2 : list A) (i : nat) :
  (l1 ++ l2) !! (length l1 + i) = l2 !! i.
Proof. rewrite lookup_app_r by lia. f_equal. lia. Qed.

(** Reading the heap that the perturbation hands on. *)
Lemma perturb_heap_lookup (hb h1 : heap R) d m c (t0 t1 t2 t3 : Tensor R) :
  dicts hb !! d = Some m -> c = length (tensors hb) ->
  tensors h1 = tensors hb ++ [t0; t1; t2; t3] ->
  dicts h1 = <[d := <[CELL_KEY := c + 3]> (<[POSITIONS_KEY := c + 2]>
                     (<[DISPLACEMENT := c + 1]> (<[CELL_KEY := c]> m)))]> (dicts hb) ->
  tensors h1 !! c = Some t0 /\
  dict_at h1 d DISPLACEMENT = Some (c + 1) /\
  dict_at h1 d POSITIONS_KEY = Some (c + 2) /\
  dict_at h1 d CELL_KEY = Some (c + 3) /\
  state_tensor h1 d DISPLACEMENT = Some t1 /\
  state_tensor h1 d POSITIONS_KEY = Some t2 /\
  state_tensor h1 d CELL_KEY = Some t3 /\
  (forall k t, k ≠ CELL_KEY -> k ≠ POSITIONS_KEY -> k ≠ DISPLACEMENT ->
     state_tensor hb d k = Some t -> state_tensor h1 d k = Some t).
Proof.
  intros Hm -> Ht Hd.
  assert (Hlt : d < length (dicts hb)) by (by eapply lookup_lt_Some).
  assert (H0 : tensors h1 !! length (tensors hb) = Some t0).
  { rewrite Ht. by rewrite list_lookup_middle. }
  assert (HD : dict_at h1 d DISPLACEMENT = Some (length (tensors hb) + 1)).
  { unfold dict_at. rewrite Hd, list_lookup_insert_eq by done.
    rewrite !lookup_insert_ne by done. apply lookup_insert_eq. }
  assert (HP : dict_at h1 d POSITIONS_KEY = Some (length (tensors hb) + 2)).
  { unfold dict_at. rewrite Hd, list_lookup_insert_eq by done.
    rewrite !lookup_insert_ne by done. apply lookup_insert_eq. }
  assert (HC : dict_at h1 d CELL_KEY = Some (length (tensors hb) + 3)).
  { unfold dict_at. rewrite Hd, list_lookup_insert_eq by done.
    apply lookup_insert_eq. }
  repeat split; try done.
  - unfold state_tensor. rewrite HD, Ht. by rewrite lookup_app_add.
  - unfold state_tensor. rewrite HP, Ht. by rewrite lookup_app_add.
  - unfold state_tensor. rewrite HC, Ht. by rewrite lookup_app_add.
  - intros k t Hk1 Hk2 Hk3. unfold state_tensor, dict_at.
    rewrite Hd, list_lookup_insert_eq, Hm by done.
    rewrite !lookup_insert_ne by done.
    destruct (m !! k) as [a|]; [|done]. rewrite Ht. apply lookup_app_l_Some.
Qed.

(** Everything about the state that the perturbation hands on. *)
Lemma StressOutput_perturb_spec data (h h1 : heap R) d num_batch c pos cell0 :
  StressOutput_perturb data h = (h1, Ok (d, num_batch, c)) ->
  state_tensor h data POSITIONS_KEY = Some pos ->
  state_tensor h data CELL_KEY = Some cell0 ->
  exists n N js batch viewed cellref S new_pos new_cell,
    d = data /\
    (forall a t, tensors h !! a = Some t -> tensors h1 !! a = Some t) /\
    (forall k, k ≠ BATCH_KEY -> k ≠ CELL_KEY -> k ≠ POSITIONS_KEY -> k ≠ DISPLACEMENT ->
       dict_at h1 d k = dict_at h data k) /\
    length (tensors h) <= c /\
    dict_at h1 d DISPLACEMENT = Some (c + 1) /\
    dict_at h1 d POSITIONS_KEY = Some (c + 2) /\
    dict_at h1 d CELL_KEY = Some (c + 3) /\
    is_Some (tensors h1 !! (c + 3)) /\ length (tensors h1) = c + 4 /\
    requires_grad new_pos = true /\
    (0 <= num_batch)%Z /\ N = Z.to_nat num_batch /\
    shape pos = [n; 3] /\
    state_tensor h1 d BATCH_KEY = Some batch /\
    shape batch = [n] /\ elems batch = Longs js /\
    view_m33 cell0 = Ok viewed /\ expand_n33 viewed num_batch = Ok cellref /\
    shape cellref = [N; 3; 3] /\ tensors h1 !! c = Some cellref /\
    state_tensor h1 d DISPLACEMENT = Some S /\
    shape S = [N; 3; 3] /\ elems S = Floats (repeat s_zero (N * 9)) /\
    requires_grad S = true /\
    state_tensor h1 d POSITIONS_KEY = Some new_pos /\ shape new_pos = [n; 3] /\
    (forall i b, i < n -> js !! i = Some b ->
       exists bi, norm_index N b = Some bi /\
         forall k, k < 3 ->
           at2 new_pos i k
           = s_add (at2 pos i k)
               (sum_list (map (fun l => s_mul (at2 pos i l) (at3 S bi l k)) (seq 0 3)))) /\
    state_tensor h1 d CELL_KEY = Some new_cell /\ shape new_cell = [N; 3; 3] /\
    (forall j r k, j < N -> r < 3 -> k < 3 ->
       at3 new_cell j r k
       = s_add (at3 cellref j r k)
           (sum_list (map (fun l => s_mul (at3 cellref j r l) (at3 S j l k)) (seq 0 3)))) /\
    (ZeroLaws R ->
     (forall i k, i < n -> k < 3 -> at2 new_pos i k = at2 pos i k) /\
     (forall j r k, j < N -> r < 3 -> k < 3 -> at3 new_cell j r k = at3 cellref j r k)).
Proof.
  intros Hr Hpos Hcell.
  destruct (StressOutput_perturb_Ok _ _ _ _ _ _ _ Hr Hpos)
    as (hb & m & batch & cell0' & viewed & cellref & zeros & row_pos & strain & prod
        & shift & new_pos & prod' & new_cell & Hwb & Hm & Hbatch & Hmax & Hcell'
        & Hview & Hexp & Hzeros & Hpos' & Hus & Hidx & Hbmm & Hsq & Hadd & Hbmm'
        & Hadd' & Hc & Ht & Hd).
  destruct (with_batch_Ok _ _ _ _ Hwb) as (-> & Hwbs & Hwbd & Hwbk & Hwbl).
  apply Hwbs in Hcell; [|done].
  assert (cell0' = cell0) as -> by congruence.
  destruct (zeros_n33_spec _ _ _ Hzeros) as (Hnb & Hsz & Hez).
  set (N := Z.to_nat num_batch) in *.
  set (D := mkTensor (shape zeros) (elems zeros) true) in *.
  pose proof (view_expand_shape _ _ _ _ Hview Hexp Hnb) as Hsc. fold N in Hsc.
  destruct (perturbed_cell cellref D prod' new_cell N Hsc Hsz Hbmm' Hadd')
    as (Hsnc & _ & (zs & HeD) & Hcellv).
  pose proof (Hez zs HeD) as ->.
  destruct (perturbed_positions _ _ D _ _ _ _ _ N _ Hsz HeD Hus Hidx Hbmm Hsq Hadd)
    as (n & js & Hsp & Hsb & Hjs & Hsnp & Hrg & Hposv & Hsel & Hzero).
  destruct (perturb_heap_lookup hb h1 data m c cellref D new_pos new_cell Hm Hc Ht Hd)
    as (Hc0 & HdD & HdP & HdC & HSD & HSP & HSC & Hother).
  exists n, N, js, batch, viewed, cellref, D, new_pos, new_cell.
  repeat match goal with |- _ /\ _ => split end; try done.
  - intros a t Ha. rewrite Ht. apply lookup_app_l_Some.
    by eapply with_batch_tensors.
  - intros k Hk1 Hk2 Hk3 Hk4. rewrite <- Hwbd by done.
    unfold dict_at. rewrite Hd, Hm.
    rewrite list_lookup_insert_eq by (by eapply lookup_lt_Some).
    by rewrite !lookup_insert_ne.
  - lia.
  - rewrite Ht. rewrite lookup_app_r by lia.
    replace (c + 3 - length (tensors hb)) with 3 by lia. eauto.
  - rewrite Ht, length_app. simpl. lia.
  - rewrite Hrg. unfold D. cbn [requires_grad]. by rewrite !orb_true_r.
  - by apply Hother.
  - intros i b Hi Hb. destruct (Hsel i b Hb) as (bi & Hbi & Hs).
    exists bi. split; [done|]. intros k Hk. rewrite Hposv by done. f_equal. f_equal.
    apply map_ext_in. intros l Hl%in_seq. f_equal. apply Hs; lia.
  - intros Hlaws. split.
    + intros i k Hi Hk. rewrite Hposv by done.
      rewrite sum_mul_zero; [by apply zl_add_0_r | done |].
      intros l. apply Hzero. intros j. apply fget_repeat_zero.
    + intros j r k Hj Hr' Hk. rewrite Hcellv by done.
      rewrite sum_mul_zero; [by apply zl_add_0_r | done |].
      intros l. by eapply at3_zeros.
Qed.


(** ** What the constructors establish *)

Lemma GradientOutput_init_Ok (f : GraphModule R) of0 wrt0 out0 sign0 self :
  GradientOutput_init _init_irreps f of0 wrt0 out0 sign0 = Ok self ->
  is_unit_sign sign0 = true /\
  sign self = sign0 /\ _negate self = Qeq_bool sign0 (-1) /\
  of_ self = of0 /\ wrt self = as_list wrt0 /\ func self = f /\
  out_field self
  = match out0 with
    | Some l => as_list l
    | None => map (default_out_field of0) (as_list wrt0)
    end /\
  length (out_field self) = length (wrt self) /\
  training self = true /\
  exists ins outs upd,
    _init_irreps (gm_irreps_in f) {[ of0 := Some Irreps_0e ]} (gm_irreps_out f)
    = Ok (ins, outs) /\
    grad_irreps ins (zip (out_field self) (wrt self)) ∅ = Ok upd /\
    irreps_in self = ins /\ irreps_out self = upd ∪ outs.
Proof.
  unfold GradientOutput_init. intros Hi.
  destruct (is_unit_sign sign0); [|done]. simpl in Hi.
  destruct out0 as [l|]; simpl in Hi.
  - destruct (length (as_list l) =? length (as_list wrt0)) eqn:El; [|done].
    apply Nat.eqb_eq in El.
    destruct (_init_irreps _ _ _) as [[ins outs]|] eqn:Ei; [|done].
    destruct (grad_irreps _ _ _) as [upd|] eqn:Eg; [|done].
    injection Hi as <-. simpl. repeat split; try done. eauto 10.
  - destruct (_init_irreps _ _ _) as [[ins outs]|] eqn:Ei; [|done].
    destruct (grad_irreps _ _ _) as [upd|] eqn:Eg; [|done].
    injection Hi as <-. simpl. repeat split; try done.
    + by rewrite length_map.
    + eauto 10.
Qed.

Lemma StressOutput_init_Ok (energy_model : GraphModule R) flag self :
  StressOutput_init _init_irreps energy_model flag = Ok self ->
  flag = true /\
  wrt (_grad self) = [POSITIONS_KEY; DISPLACEMENT] /\
  out_field (_grad self) = [FORCE_KEY; STRESS_KEY] /\
  _negate (_grad self) = false /\
  of_ (_grad self) = TOTAL_ENERGY_KEY /\
  gm_forward (func (_grad self)) = gm_forward energy_model.
Proof.
  unfold StressOutput_init. intros Hi.
  destruct flag; [|done]. simpl in Hi.
  destruct (GradientOutput_init _ _ _ _ _ _) as [g|] eqn:Eg; [|done].
  apply GradientOutput_init_Ok in Eg
    as (_ & _ & Hn & Ho & Hw & Hf & Hout & _).
  destruct (negb _); [done|].
  destruct (_ !! DISPLACEMENT); [|done].
  destruct (_init_irreps _ _ _) as [[ins outs]|]; [|done].
  destruct (outs !! DISPLACEMENT); [|done].
  injection Hi as <-. simpl. rewrite Hw, Hout, Hn, Ho, Hf. done.
Qed.

(** ** The scaling of [StressOutput.forward] *)

Lemma StressOutput_finish_data data num_batch c (h h' : heap R) d' :
  StressOutput_finish data num_batch c h = (h', Ok d') -> d' = data.
Proof.
  unfold StressOutput_finish. intros Hr. inv_run.
  destruct (negb _); [discriminate|]. by inv_run.
Qed.

Lemma stable_field_flag d k (v : bool) :
  stable (fun h : heap R => field_flag h d k = Some v) (fun k' => k' ≠ k).
Proof.
  split.
  - intros h t. unfold field_flag, state_tensor, dict_at. cbn [tensors dicts].
    destruct (dicts h !! d) as [m|]; [|done]. destruct (m !! k) as [a|]; [|done].
    destruct (tensors h !! a) as [t0|] eqn:Ha; [|done].
    by rewrite (lookup_app_l_Some _ _ _ _ Ha).
  - intros h d' m k' a Hne Hm. unfold field_flag, state_tensor.
    pose proof (stable_set _ _ (stable_dict_at d k (dict_at h d k)) h d' m k' a Hne Hm eq_refl)
      as ->. done.
  - intros h d' m k' Hne Hm. unfold field_flag, state_tensor.
    pose proof (stable_del _ _ (stable_dict_at d k (dict_at h d k)) h d' m k' Hne Hm eq_refl)
      as ->. done.
Qed.

Lemma StressOutput_forward_Ok (self : StressOutput R) data (h h' : heap R) d' :
  StressOutput_forward autograd_grad self data h = (h', Ok d') ->
  exists h1 d num_batch c h2 d2,
    StressOutput_perturb data h = (h1, Ok (d, num_batch, c)) /\
    GradientOutput_forward autograd_grad (_grad self) d h1 = (h2, Ok d2) /\
    StressOutput_finish d2 num_batch c h2 = (h', Ok d').
Proof.
  unfold StressOutput_forward. intros Hr. inv_run.
  destruct a as [[d nb] c]. simpl in *. eauto 10.
Qed.

(** ** C2: the differentiation-enabled flags *)

Lemma zip_lookup_elem {A B} (l1 : list A) (l2 : list B) i x y :
  l1 !! i = Some x -> l2 !! i = Some y -> (x, y) ∈ zip l1 l2.
Proof.
  intros H1 H2. apply list_elem_of_lookup. exists i.
  rewrite lookup_zip_with, H1. simpl. by rewrite H2.
Qed.

(** On a normal return of [GradientOutput.forward], each field of [wrt]
    has the flag that it had on entry. *)
Lemma GradientOutput_forward_restores (self : GradientOutput R) data (h h' : heap R) d' :
  GradientOutput_forward autograd_grad self data h = (h', Ok d') ->
  NoDup (wrt self) -> no_alias h data (wrt self) -> no_alias h' d' (wrt self) ->
  forall k, k ∈ wrt self -> field_flag h' d' k = field_flag h data k.
Proof.
  intros Hr Hnd Hin Hout k Hk.
  destruct (GradientOutput_forward_Ok _ _ _ _ _ Hr)
    as (h1 & olds & h2 & et & h3 & gs & h4 & Hset & Hf & Hof & Hg & Hw & Hun).
  pose proof (set_requires_grad_olds _ _ _ _ _ Hset Hnd Hin) as Holds.
  destruct (set_requires_grad_length _ _ _ _ _ Hset) as [Hl1 Hl2].
  apply list_elem_of_lookup in Hk as [i Hi].
  destruct (Forall2_lookup_l _ _ _ _ _ Holds Hi) as (b & Hb & Hflag).
  rewrite Hflag.
  pose proof (unset_requires_grad_dicts _ _ _ _ _ Hun) as Hd.
  eapply unset_requires_grad_flags; [exact Hun | | | ].
  - rewrite snd_zip by lia. done.
  - rewrite snd_zip by lia. eapply (no_alias_dicts h'); [done|done].
  - by eapply zip_lookup_elem.
Qed.

(** The positions that [StressOutput.forward] returns require gradients. *)
Lemma StressOutput_forward_positions_flag (energy_model : GraphModule R)
    (self : StressOutput R) data (h h' : heap R) d' pos cell0 :
  StressOutput_init _init_irreps energy_model true = Ok self ->
  StressOutput_forward autograd_grad self data h = (h', Ok d') ->
  state_tensor h data POSITIONS_KEY = Some pos ->
  state_tensor h data CELL_KEY = Some cell0 ->
  field_flag h' d' POSITIONS_KEY = Some true.
Proof.
  intros Hinit Hr Hpos Hcell.
  destruct (StressOutput_init_Ok _ _ _ Hinit) as (_ & Hwrt & Hout & _).
  destruct (StressOutput_forward_Ok _ _ _ _ _ Hr)
    as (h1 & d & nb & c & h2 & d2 & Hp & Hg & Hf).
  destruct (StressOutput_perturb_spec _ _ _ _ _ _ _ _ Hp Hpos Hcell)
    as (n & N & js & batch & viewed & cellref & S & new_pos & new_cell & _ & _ & _ & _
        & HdD & HdP & _ & _ & _ & Hrg & _ & _ & _ & _ & _ & _ & _ & _ & _ & _
        & HS & _ & _ & HrS & HP & _).
  pose proof (StressOutput_finish_data _ _ _ _ _ _ Hf) as ->.
  eapply (preserves_StressOutput_finish _ _ (stable_field_flag d2 POSITIONS_KEY true));
    [done | done | done | exact Hf |].
  destruct (GradientOutput_forward_Ok _ _ _ _ _ Hg)
    as (h1' & olds & hf & et & h3 & gs & h4 & Hset & _ & _ & _ & _ & Hun).
  rewrite Hwrt in Hset, Hun. simpl in Hset. inv_run.
  assert (a = c + 2) as -> by congruence.
  assert (a0 = new_pos) as ->.
  { unfold state_tensor in HP. rewrite HdP in HP. congruence. }
  unfold dict_at in Hr4. cbn [dicts] in Hr4. fold (dict_at h1 d DISPLACEMENT) in Hr4.
  assert (a3 = c + 1) as -> by congruence.
  rewrite list_lookup_insert_ne in Hr3 by lia.
  assert (a4 = S) as ->.
  { unfold state_tensor in HS. rewrite HdD in HS. congruence. }
  simpl in Hun. rewrite Hrg, HrS in Hun. inv_run.
  unfold dict_at in Hr5. cbn [dicts] in Hr5. fold (dict_at h4 d2 DISPLACEMENT) in Hr5.
  unfold field_flag, state_tensor, dict_at. cbn [dicts tensors].
  unfold dict_at in Hr1. rewrite Hr1.
  assert (Hlt : a < length (tensors h4)) by (by eapply lookup_lt_Some).
  destruct (decide (a2 = a)) as [->|Hne].
  - rewrite list_lookup_insert_eq by (by rewrite length_insert). done.
  - rewrite list_lookup_insert_ne by done.
    rewrite list_lookup_insert_eq by done. done.
Qed.

(** ** C5: a disconnected gradient *)

Lemma bind_Ok_eq {A B} (m : M R A) (k : A -> M R B) (h h1 : heap R) (a : A) :
  m h = (h1, Ok a) -> bind m k h = k a h1.
Proof. intros Hm. unfold bind. by rewrite Hm. Qed.

(** The allocation of the gradients succeeds when the inputs exist; it
    leaves the dictionaries alone and answers [None] exactly where the
    engine did. *)
Lemma alloc_grads_total (l : list (nat * option (bool * (nat -> R)))) (h : heap R) :
  Forall (fun p => p.1 < length (tensors h)) l ->
  exists h' gas,
    alloc_grads l h = (h', Ok gas) /\ dicts h' = dicts h /\
    length (tensors h) <= length (tensors h') /\
    Forall2 (fun p ga => p.2 = None <-> ga = None) l gas /\
    Forall (fun ga => forall x, ga = Some x -> x < length (tensors h')) gas.
Proof.
  revert h. induction l as [|[a [[rg g]|]] l IH]; intros h Hv.
  - exists h, []. simpl. repeat split; try done; constructor.
  - apply Forall_cons in Hv as [Ha Hv]. simpl in Ha.
    destruct (lookup_lt_is_Some_2 _ _ Ha) as [t Ht].
    set (h1 := mkHeap (tensors h ++ [mkTensor (shape t)
                 (Floats (map g (seq 0 (numel (shape t))))) rg]) (dicts h)).
    destruct (IH h1) as (h' & gas & Hr & Hd & Hl & Hf & Hx).
    { eapply Forall_impl; [exact Hv|]. intros p Hp. unfold h1. simpl in *.
      rewrite length_app. simpl. lia. }
    exists h', (Some (length (tensors h)) :: gas). simpl.
    unfold bind at 1, tensor_at. rewrite Ht.
    unfold bind at 1, new_tensor. fold h1.
    unfold bind at 1. rewrite Hr. unfold ret.
    unfold h1 in Hl. simpl in Hl. rewrite length_app in Hl. simpl in Hl.
    repeat split; try done.
    + lia.
    + constructor; [done|done].
    + constructor; [|done]. intros x [= <-]. lia.
  - apply Forall_cons in Hv as [Ha Hv].
    destruct (IH h Hv) as (h' & gas & Hr & Hd & Hl & Hf & Hx).
    exists h', (None :: gas). simpl. unfold bind at 1. rewrite Hr. unfold ret.
    repeat split; try done.
    + constructor; [done|done].
    + constructor; [done|done].
Qed.

(** The second loop raises at the first missing gradient. *)
Lemma write_grads_None d negate (l : list (string * option nat)) (h : heap R) :
  is_Some (dicts h !! d) ->
  Forall (fun p => forall x, p.2 = Some x -> x < length (tensors h)) l ->
  None ∈ l.*2 ->
  exists h', write_grads d negate l h = (h', Raise grad_error).
Proof.
  revert h. induction l as [|[out [g|]] l IH]; intros h Hd Hv Hin.
  - by apply elem_of_nil in Hin.
  - apply Forall_cons in Hv as [Hg Hv]. specialize (Hg g eq_refl).
    destruct (lookup_lt_is_Some_2 _ _ Hg) as [t Ht]. destruct Hd as [m Hm].
    apply elem_of_cons in Hin as [Hin|Hin]; [done|].
    simpl. destruct negate.
    + set (h1 := mkHeap (tensors h ++ [neg t])
                   (<[d := <[out := length (tensors h)]> m]> (dicts h))).
      destruct (IH h1) as (h' & Hr).
      { unfold h1. simpl. rewrite list_lookup_insert_eq by (by eapply lookup_lt_Some).
        eauto. }
      { eapply Forall_impl; [exact Hv|]. intros p Hp x Hx. unfold h1. simpl.
        rewrite length_app. specialize (Hp x Hx). lia. }
      { done. }
      exists h'. unfold bind at 1. unfold bind at 1, tensor_at. rewrite Ht.
      unfold new_tensor. unfold bind at 1, setitem. simpl. rewrite Hm. exact Hr.
    + set (h1 := mkHeap (tensors h) (<[d := <[out := g]> m]> (dicts h))).
      destruct (IH h1) as (h' & Hr).
      { unfold h1. simpl. rewrite list_lookup_insert_eq by (by eapply lookup_lt_Some).
        eauto. }
      { done. }
      { done. }
      exists h'. unfold bind at 1. unfold ret. unfold bind at 1, setitem.
      rewrite Hm. exact Hr.
  - exists h. done.
Qed.

(** C5 (amended).  When the engine answers "no dependency" for one of the
    [wrt] tensors, [GradientOutput.forward] returns no state: it raises a
    [RuntimeError] whose message is the same whichever entry is
    disconnected. *)
Theorem disconnected_gradient_is_fatal (self : GradientOutput R) data
    (h h1 h2 : heap R) olds d2 et gs i :
  length (out_field self) = length (wrt self) ->
  set_requires_grad data (wrt self) h = (h1, Ok olds) ->
  gm_forward (func self) data h1 = (h2, Ok d2) ->
  state_tensor h2 d2 (of_ self) = Some et ->
  autograd_grad h2 (tsum et) olds.2 (training self) = Ok gs ->
  Forall (fun a => a < length (tensors h2)) olds.2 ->
  i < length (wrt self) -> gs i = None ->
  exists h', GradientOutput_forward autograd_grad self data h = (h', Raise grad_error).
Proof.
  intros Hlen Hset Hf Hof Hg Hv Hi Hnone.
  destruct (set_requires_grad_length _ _ _ _ _ Hset) as [Hl1 Hl2].
  unfold state_tensor in Hof.
  destruct (dict_at h2 d2 (of_ self)) as [e|] eqn:He; [|done].
  destruct (alloc_grads_total (imap (fun i a => (a, gs i)) olds.2) h2)
    as (h3 & gas & Ha & Hd & Hl & Hn & Hx).
  { apply Forall_lookup. intros j [a g] Hj. simpl.
    rewrite list_lookup_imap in Hj.
    destruct (olds.2 !! j) as [a'|] eqn:Ej; [|done]. injection Hj as -> _.
    by eapply (Forall_lookup_1 _ _ _ _ Hv). }
  pose proof (Forall2_length _ _ _ Hn) as Hlg. rewrite length_imap in Hlg.
  destruct (write_grads_None d2 (_negate self) (zip (out_field self) gas) h3)
    as (h' & Hw).
  - rewrite Hd. unfold dict_at in He. destruct (dicts h2 !! d2); [eauto|done].
  - apply Forall_forall. intros [out ga] Hin x Hga. simpl in Hga. subst ga.
    apply elem_of_zip_r in Hin.
    by eapply (proj1 (Forall_forall _ _) Hx).
  - rewrite snd_zip by lia.
    destruct (lookup_lt_is_Some_2 olds.2 i ltac:(lia)) as [a Hai].
    assert (Hi' : imap (fun i a => (a, gs i)) olds.2 !! i = Some (a, None)).
    { rewrite list_lookup_imap, Hai. simpl. by rewrite Hnone. }
    destruct (Forall2_lookup_l _ _ _ _ _ Hn Hi') as (ga & Hga & Hiff).
    simpl in Hiff. rewrite (proj1 Hiff eq_refl) in Hga.
    eapply list_elem_of_lookup_2. exact Hga.
  - exists h'. unfold GradientOutput_forward.
    rewrite (bind_Ok_eq _ _ _ _ _ Hset).
    rewrite (bind_Ok_eq _ _ _ _ _ Hf).
    unfold bind at 1, getitem. unfold dict_at in He.
    destruct (dicts h2 !! d2) as [m|]; [|done]. rewrite He.
    unfold bind at 1, tensor_at. rewrite Hof.
    unfold bind at 1, grad. rewrite Hg, Ha.
    unfold bind at 1. by rewrite Hw.
Qed.

(** ** C10: no rollback when the gradient pass raises *)

Lemma flag_stable_dict_at d k v :
  flag_stable (fun h : heap R => dict_at h d k = v).
Proof. by intros h a t b Ht HP. Qed.

(** C10.  [StressOutput.forward] updates the state it is given in place:
    [with_batch] hands the same state back, and the strain, the perturbed
    positions and the perturbed cell are stored in it before the internal
    gradient computation runs.  When that computation raises, [forward]
    raises the same exception from the same heap: the caller's state still
    holds the ["_displacement"] field and the perturbed positions and
    cell, all three objects created by the call. *)
Theorem StressOutput_forward_no_rollback (energy_model : GraphModule R)
    (self : StressOutput R) data (h h1 h2 : heap R) d num_batch c e pos cell0 :
  StressOutput_init _init_irreps energy_model true = Ok self ->
  state_tensor h data POSITIONS_KEY = Some pos ->
  state_tensor h data CELL_KEY = Some cell0 ->
  StressOutput_perturb data h = (h1, Ok (d, num_batch, c)) ->
  GradientOutput_forward autograd_grad (_grad self) d h1 = (h2, Raise e) ->
  model_keeps_field energy_model POSITIONS_KEY ->
  model_keeps_field energy_model CELL_KEY ->
  model_keeps_field energy_model DISPLACEMENT ->
  StressOutput_forward autograd_grad self data h = (h2, Raise e) /\
  d = data /\ length (tensors h) <= c /\
  dict_at h2 data DISPLACEMENT = Some (c + 1) /\
  dict_at h2 data POSITIONS_KEY = Some (c + 2) /\
  dict_at h2 data CELL_KEY = Some (c + 3) /\
  (model_keeps_tensors energy_model -> keeps_tensors h1 h2).
Proof.
  intros Hinit Hpos Hcell Hp Hg HkP HkC HkD.
  destruct (StressOutput_init_Ok _ _ _ Hinit) as (_ & Hwrt & Hout & _ & _ & Hfw).
  destruct (StressOutput_perturb_spec _ _ _ _ _ _ _ _ Hp Hpos Hcell)
    as (n & N & js & batch & viewed & cellref & S & new_pos & new_cell & -> & _ & _
        & Hlen & HdD & HdP & HdC & _).
  assert (Hframe : forall k v, k ≠ FORCE_KEY -> k ≠ STRESS_KEY ->
            model_keeps_field energy_model k ->
            dict_at h1 data k = v -> dict_at h2 data k = v).
  { intros k v Hk1 Hk2 Hk.
    eapply (preserves_GradientOutput_forward _ _ (stable_dict_at data k v));
      [apply flag_stable_dict_at | | | exact Hg].
    - intros hh hh' r Hr <-. rewrite Hfw in Hr. by eapply Hk.
    - rewrite Hout. intros out Hin ->.
      repeat (apply elem_of_cons in Hin as [Hin|Hin]; [done|]).
      by apply elem_of_nil in Hin. }
  repeat split; try done.
  - unfold StressOutput_forward. rewrite (bind_Ok_eq _ _ _ _ _ Hp). simpl.
    unfold bind. by rewrite Hg.
  - by apply Hframe.
  - by apply Hframe.
  - by apply Hframe.
  - intros Hkt.
    eapply (preserves_GradientOutput_forward _ _ (stable_keeps_tensors h1));
      [apply flag_stable_keeps_tensors | | done | exact Hg | apply keeps_tensors_refl].
    intros hh hh' r Hr Hk. rewrite Hfw in Hr.
    eapply keeps_tensors_trans; [exact Hk|]. by eapply Hkt.
Qed.

(** ** The output fields of [GradientOutput.forward] *)

Lemma set_requires_grad_valid data ks (h h1 : heap R) olds :
  set_requires_grad data ks h = (h1, Ok olds) ->
  Forall (fun a => a < length (tensors h1)) olds.2 /\
  Forall2 (fun k a => dict_at h data k = Some a) ks olds.2 /\
  length (tensors h1) = length (tensors h) /\ keeps_tensors h h1.
Proof.
  revert h h1 olds. induction ks as [|k ks IH]; simpl; intros h h1 olds Hr.
  - inv_run. repeat split; try constructor. apply keeps_tensors_refl.
  - inv_run. apply IH in Hr2 as (Hv & Hd & Hl & Hk). simpl in *.
    rewrite length_insert in Hl. repeat split; [|constructor; done|done|].
    + constructor; [|done]. rewrite Hl. by eapply lookup_lt_Some.
    + eapply keeps_tensors_trans; [|exact Hk].
      exact (flag_stable_keeps_tensors h h a t true Ht (keeps_tensors_refl h)).
Qed.

(** The gradients that the engine answers, as objects of the heap. *)
Lemma alloc_grads_Ok (l : list (nat * option (bool * (nat -> R)))) (h h' : heap R) gas :
  alloc_grads l h = (h', Ok gas) ->
  Forall (fun p => p.1 < length (tensors h)) l ->
  dicts h' = dicts h /\ (exists ts, tensors h' = tensors h ++ ts) /\
  Forall2 (fun p ga =>
             match p.2 with
             | None => ga = None
             | Some (rg, g) =>
                 exists x t, ga = Some x /\
                   tensors h !! p.1 = Some t /\
                   tensors h' !! x
                   = Some (mkTensor (shape t) (Floats (map g (seq 0 (numel (shape t))))) rg)
             end) l gas.
Proof.
  revert h gas. induction l as [|[a [[rg g]|]] l IH]; simpl; intros h gas Hr Hv.
  - inv_run. repeat split; try done. exists []. by rewrite app_nil_r.
  - inv_run. apply Forall_cons in Hv as [Ha Hv]. simpl in Ha.
    apply IH in Hr1 as (Hd & (ts & Hts) & Hf).
    2: { eapply Forall_impl; [exact Hv|]. intros p Hp. simpl in *.
         rewrite length_app. simpl. lia. }
    simpl in *. rewrite <- app_assoc in Hts. simpl in Hts.
    repeat split; try done; [eauto|].
    constructor.
    + simpl. exists (length (tensors h)), a0. repeat split; try done.
      rewrite Hts. by rewrite list_lookup_middle.
    + eapply Forall2_impl_elem; [exact Hf|]. intros [a' g'] ga Hin. simpl.
      destruct g' as [[rg' g']|]; [|done].
      intros (x & t & -> & Ht & Hx). exists x, t. repeat split; try done.
      rewrite lookup_app_l in Ht; [done|].
      by apply (proj1 (Forall_forall _ _) Hv (a', Some (rg', g'))).
  - inv_run. apply Forall_cons in Hv as [Ha Hv].
    apply IH in Hr0 as (Hd & Hk & Hf); [|done].
    repeat split; try done. constructor; done.
Qed.

Lemma write_grads_all_Some d negate (l : list (string * option nat)) (h h' : heap R) u :
  write_grads d negate l h = (h', Ok u) ->
  forall out ga, (out, ga) ∈ l -> is_Some ga.
Proof.
  revert h. induction l as [|[out0 [g|]] l IH]; simpl; intros h Hr out ga Hin.
  - by apply elem_of_nil in Hin.
  - apply elem_of_cons in Hin as [[= -> ->]|Hin]; [eauto|].
    apply bind_Ok in Hr as (? & ? & _ & Hr). apply bind_Ok in Hr as (? & ? & _ & Hr).
    by eapply IH.
  - discriminate.
Qed.

(** The second loop binds each output field to (the negation of) its
    gradient. *)
Lemma write_grads_Ok d negate (l : list (string * option nat)) (h h' : heap R) u :
  write_grads d negate l h = (h', Ok u) ->
  NoDup l.*1 ->
  Forall (fun p => forall x, p.2 = Some x -> x < length (tensors h)) l ->
  forall out x, (out, Some x) ∈ l ->
    exists t r, tensors h !! x = Some t /\ state_tensor h' d out = Some r /\
      shape r = shape t /\ elems r = elems (if negate then neg t else t).
Proof.
  revert h. induction l as [|[out0 [g|]] l IH]; simpl; intros h Hr Hnd Hv out x Hin.
  - by apply elem_of_nil in Hin.
  - apply NoDup_cons in Hnd as [Hout0 Hnd].
    apply Forall_cons in Hv as [Hg Hv]. specialize (Hg g eq_refl). simpl in Hg.
    destruct (lookup_lt_is_Some_2 _ _ Hg) as [t Ht].
    apply bind_Ok in Hr as (g' & h1 & Hg' & Hr).
    apply bind_Ok in Hr as (? & h2 & Hs & Hr).
    assert (Hh1 : dicts h1 = dicts h /\
                  (forall a t0, tensors h !! a = Some t0 -> tensors h1 !! a = Some t0) /\
                  tensors h1 !! g' = Some (if negate then neg t else t)).
    { destruct negate; inv_run.
      - assert (a = t) as -> by congruence. simpl.
        repeat split; [apply lookup_app_l_Some | apply lookup_snoc].
      - done. }
    destruct Hh1 as (Hd1 & Hext & Hg1).
    inv_run. simpl in *.
    set (h2 := mkHeap (tensors h1) (<[d := <[out0 := g']> m]> (dicts h1))) in *.
    assert (Hk : keeps_tensors h2 h').
    { eapply (preserves_write_grads _ _ (stable_keeps_tensors h2));
        [done | exact Hr | apply keeps_tensors_refl]. }
    apply elem_of_cons in Hin as [[= -> ->]|Hin].
    + assert (Hda : dict_at h' d out0 = Some g').
      { eapply (preserves_write_grads _ _ (stable_dict_at d out0 (Some g')));
          [| exact Hr |].
        - intros out Hin ->. done.
        - unfold dict_at, h2. simpl.
          rewrite list_lookup_insert_eq by (by eapply lookup_lt_Some).
          apply lookup_insert_eq. }
      destruct (Hk g' _ Hg1) as (r & Hr' & Hs' & He').
      exists t, r. repeat split; try done.
      * unfold state_tensor. by rewrite Hda.
      * rewrite Hs'. by destruct negate.
    + destruct (IH h2 Hr Hnd) with (out := out) (x := x) as (t' & r & Ht' & Hrest);
        [|done|].
      { eapply Forall_impl; [exact Hv|]. intros p Hp y Hy. specialize (Hp y Hy).
        unfold h2. simpl.
        assert (length (tensors h) <= length (tensors h1)); [|lia].
        destruct (decide (length (tensors h) <= length (tensors h1))); [done|].
        exfalso. destruct (tensors h) as [|z zs] eqn:Ez using rev_ind; [simpl in *; lia|].
        clear IHzs. specialize (Hext (length zs) z).
        rewrite lookup_snoc in Hext. specialize (Hext eq_refl).
        apply lookup_lt_Some in Hext. rewrite length_app in *. simpl in *. lia. }
      exists t', r. split; [|done].
      unfold h2 in Ht'. simpl in Ht'.
      assert (Hx : x < length (tensors h)).
      { by apply (proj1 (Forall_forall _ _) Hv (out, Some x)). }
      destruct (lookup_lt_is_Some_2 _ _ Hx) as [tx Htx].
      rewrite (Hext _ _ Htx) in Ht'. congruence.
  - discriminate.
Qed.

Lemma fst_zip_take {A B} (l : list A) (k : list B) :
  (zip l k).*1 = take (length k) l.
Proof.
  revert k. induction l as [|x l IH]; intros [|y k]; simpl; try done.
  by rewrite IH.
Qed.

(** For every position [i] of [wrt] and [out_field], the state returned by
    [GradientOutput.forward] holds under the output field a tensor with
    the shape of the input tensor and with the elements of its gradient,
    negated when [sign] is -1. *)
Lemma GradientOutput_forward_outputs (self : GradientOutput R) data (h h' : heap R) d' :
  GradientOutput_forward autograd_grad self data h = (h', Ok d') ->
  NoDup (out_field self) -> model_keeps_tensors (func self) ->
  forall i out w, out_field self !! i = Some out -> wrt self !! i = Some w ->
    exists t g r,
      state_tensor h data w = Some t /\ state_tensor h' d' out = Some r /\
      shape r = shape t /\
      elems r = Floats (map (fun j => if _negate self then s_neg (g j) else g j)
                            (seq 0 (numel (shape t)))).
Proof.
  intros Hr Hnd Hkt i out w Hout Hw.
  destruct (GradientOutput_forward_Ok _ _ _ _ _ Hr)
    as (h1 & olds & hf & et & h3 & gas & h4 & Hset & Hf & Hof & Hg & Hwg & Hun).
  destruct (set_requires_grad_valid _ _ _ _ _ Hset) as (Hv1 & Hd1 & Hl1 & Hk1).
  destruct (set_requires_grad_length _ _ _ _ _ Hset) as [Hlo1 Hlo2].
  pose proof (Hkt _ _ _ _ Hf) as Hkf.
  destruct (Forall2_lookup_l _ _ _ _ _ Hd1 Hw) as (a & Ha & Hda).
  assert (Hvf : Forall (fun a => a < length (tensors hf)) olds.2).
  { eapply Forall_impl; [exact Hv1|]. intros a' Ha'. simpl in Ha'.
    destruct (lookup_lt_is_Some_2 _ _ Ha') as [t' Ht'].
    destruct (Hkf _ _ Ht') as (t'' & Ht'' & _). by eapply lookup_lt_Some. }
  unfold grad in Hg.
  destruct (autograd_grad hf (tsum et) olds.2 (training self)) as [gs|] eqn:Eg;
    [|discriminate].
  apply alloc_grads_Ok in Hg as (Hd3 & (ts & Hts) & Hf3).
  2: { apply Forall_lookup. intros j [a' g'] Hj. simpl.
       rewrite list_lookup_imap in Hj.
       destruct (olds.2 !! j) as [a''|] eqn:Ej; [|done]. injection Hj as -> _.
       by eapply (Forall_lookup_1 _ _ _ _ Hvf). }
  assert (Hi : imap (fun i a => (a, gs i)) olds.2 !! i = Some (a, gs i)).
  { by rewrite list_lookup_imap, Ha. }
  destruct (Forall2_lookup_l _ _ _ _ _ Hf3 Hi) as (ga & Hga & Hrel). simpl in Hrel.
  assert (Hin : (out, ga) ∈ zip (out_field self) gas) by (by eapply zip_lookup_elem).
  destruct (write_grads_all_Some _ _ _ _ _ _ Hwg _ _ Hin) as [x ->].
  destruct (gs i) as [[rg g]|]; [|done].
  destruct Hrel as (x' & t & [= <-] & Htf & Hx).
  pose proof (Forall2_length _ _ _ Hf3) as Hlg. rewrite length_imap in Hlg.
  destruct (write_grads_Ok _ _ _ _ _ _ Hwg) with (out := out) (x := x)
    as (t' & r & Ht' & Hr4 & Hs4 & He4).
  { rewrite fst_zip_take. eapply sublist_NoDup; [exact Hnd | apply sublist_take]. }
  { apply Forall_forall. intros [o [y|]] Hoy z Hz; [|done]. injection Hz as ->.
    apply elem_of_zip_r in Hoy. apply list_elem_of_lookup in Hoy as [j Hj].
    destruct (Forall2_lookup_r _ _ _ _ _ Hf3 Hj) as ([a' g'] & _ & Hrel').
    simpl in Hrel'. destruct g' as [[rg' g']|]; [|done].
    destruct Hrel' as (y' & ty & [= <-] & _ & Hy). by eapply lookup_lt_Some. }
  { done. }
  assert (t' = mkTensor (shape t) (Floats (map g (seq 0 (numel (shape t))))) rg)
    as -> by congruence.
  pose proof (unset_requires_grad_dicts _ _ _ _ _ Hun) as Hd5.
  assert (Hk5 : keeps_tensors h4 h').
  { eapply (preserves_unset_requires_grad (keeps_tensors h4));
      [apply flag_stable_keeps_tensors | exact Hun | apply keeps_tensors_refl]. }
  unfold state_tensor in Hr4.
  destruct (dict_at h4 d' out) as [ao|] eqn:Eao; [|done].
  destruct (Hk5 _ _ Hr4) as (r' & Hr' & Hs' & He').
  destruct (lookup_lt_is_Some_2 (tensors h) a) as [t0 Ht0].
  { rewrite <- Hl1. by eapply (Forall_lookup_1 _ _ _ _ Hv1). }
  destruct (Hk1 _ _ Ht0) as (t1 & Ht1 & Hs1 & _).
  destruct (Hkf _ _ Ht1) as (t2 & Ht2 & Hs2 & _).
  assert (t2 = t) as -> by congruence.
  exists t0, g, r'. repeat split.
  - unfold state_tensor. by rewrite Hda.
  - unfold state_tensor, dict_at. rewrite Hd5. fold (dict_at h4 d' out).
    by rewrite Eao.
  - rewrite Hs', Hs4. simpl. congruence.
  - rewrite He', He4. replace (shape t0) with (shape t) by congruence.
    destruct (_negate self); simpl; [|done]. by rewrite map_map.
Qed.

(** ** The scaling of the stress *)

Lemma volume_spec (cell vol : Tensor R) :
  volume cell = Ok vol ->
  exists N, shape cell = [N; 3; 3] /\ shape vol = [N; 1; 1] /\
    elems vol = Floats (map (fun i => triple_product (row cell i 0) (row cell i 1)
                                                     (row cell i 2)) (seq 0 N)).
Proof.
  unfold volume. intros Hv.
  destruct (shape cell) as [|N [|a [|b [|]]]] eqn:E; try done.
  all: destruct a as [|[|[|[|]]]]; try done.
  all: destruct b as [|[|[|[|]]]]; try done.
  destruct (elems cell); [|done]. injection Hv as <-. eauto.
Qed.

Lemma row_same_data (t t' : Tensor R) i r :
  shape t' = shape t -> elems t' = elems t -> row t' i r = row t i r.
Proof. intros Hs He. unfold row, at3, floats. by rewrite Hs, He. Qed.

Lemma Ok_inj {A} (a b : A) : Ok a = Ok b -> a = b.
Proof. by intros [= ->]. Qed.

Lemma bc_index_n11 (N i j k : nat) :
  i < N -> j < 3 -> k < 3 ->
  bc_index [3; 3; N] [1; 1; N] ((i * 3 + j) * 3 + k) = i.
Proof.
  intros Hi Hj Hk.
  change (bc_index [3; 3; N] [1; 1; N] ((i * 3 + j) * 3 + k))
    with (0 + 1 * (0 + 1 * ((if N =? 1 then 0
                             else (((i * 3 + j) * 3 + k) / 3 / 3) mod N) + N * 0))).
  assert (H1 : ((i * 3 + j) * 3 + k) / 3 = i * 3 + j).
  { symmetry. apply (Nat.div_unique _ 3 _ k); lia. }
  assert (H2 : (i * 3 + j) / 3 = i).
  { symmetry. apply (Nat.div_unique _ 3 _ j); lia. }
  rewrite H1, H2. destruct (N =? 1) eqn:EN.
  - apply Nat.eqb_eq in EN. lia.
  - rewrite Nat.mod_small by done. lia.
Qed.

(** Division of a (N, 3, 3) tensor by a (N, 1, 1) tensor. *)
Lemma binop_n33_n11 (f : R -> R -> R) (a b r : Tensor R) (N : nat) :
  binop f a b = Ok r -> shape a = [N; 3; 3] -> shape b = [N; 1; 1] ->
  (exists xs, elems a = Floats xs) ->
  shape r = [N; 3; 3] /\
  forall i j k, i < N -> j < 3 -> k < 3 ->
    at3 r i j k = f (at3 a i j k) (fget (floats b) i).
Proof.
  unfold binop. intros Hr Ha Hb [xs Exs]. rewrite Exs in Hr.
  destruct (elems b) as [ys|] eqn:Eys; [|done].
  rewrite Ha, Hb in Hr.
  change (rev [N; 3; 3]) with [3; 3; N] in Hr.
  change (rev [N; 1; 1]) with [1; 1; N] in Hr.
  assert (Hbc : broadcast_rev [3; 3; N] [1; 1; N] = Some [3; 3; N]).
  { simpl. by rewrite Nat.eqb_refl. }
  rewrite Hbc in Hr. change (rev [3; 3; N]) with [N; 3; 3] in Hr.
  apply Ok_inj in Hr. subst r. split; [done|].
  intros i j k Hi Hj Hk. unfold at3, floats. cbn [shape elems].
  rewrite Ha, Exs, Eys.
  assert (Hn : numel [3; 3; N] = 9 * N) by (unfold numel; simpl; lia).
  unfold fget at 1. rewrite nth_map_seq by lia.
  rewrite bc_index_same by lia. by rewrite bc_index_n11.
Qed.

Lemma StressOutput_finish_Ok data num_batch c (h h' : heap R) d' force stress cell :
  StressOutput_finish data num_batch c h = (h', Ok d') ->
  state_tensor h data FORCE_KEY = Some force ->
  state_tensor h data STRESS_KEY = Some stress ->
  tensors h !! c = Some cell ->
  exists vol scaled,
    d' = data /\ volume cell = Ok vol /\
    binop s_div stress vol = Ok scaled /\
    state_tensor h' data FORCE_KEY = Some (neg force) /\
    state_tensor h' data STRESS_KEY = Some scaled.
Proof.
  unfold StressOutput_finish. intros Hr Hforce Hstress Hcell. inv_run.
  destruct (negb _); [discriminate|]. inv_run.
  rewrite ?list_insert_insert_eq in *.
  assert (Hlt : data < length (dicts h)) by (by eapply lookup_lt_Some).
  repeat match goal with
  | Hx : <[data := ?x]> (dicts h) !! data = Some ?m |- _ =>
      rewrite list_lookup_insert_eq in Hx by done; injection Hx as <-
  end.
  unfold state_tensor in Hforce, Hstress. rewrite Hr0 in Hforce.
  assert (a0 = force) as -> by congruence.
  unfold dict_at in Hr1. cbn [dicts] in Hr1.
  rewrite list_lookup_insert_eq, lookup_insert_ne in Hr1 by done.
  unfold dict_at in Hstress. rewrite Hm, Hr1 in Hstress.
  rewrite (lookup_app_l_Some _ _ _ _ Hstress) in Hr5.
  rewrite (lookup_app_l_Some _ _ _ _ Hcell) in Hr3.
  assert (a5 = stress) as -> by congruence.
  assert (a3 = cell) as -> by congruence.
  exists a4, a6. repeat split; try done.
  - unfold state_tensor, dict_at. cbn [dicts tensors].
    rewrite list_lookup_insert_eq by done.
    rewrite lookup_delete_ne, lookup_insert_ne, lookup_insert_eq by done.
    rewrite <- app_assoc. cbn [app]. by rewrite list_lookup_middle.
  - unfold state_tensor, dict_at. cbn [dicts tensors].
    rewrite list_lookup_insert_eq by done.
    rewrite lookup_delete_ne, lookup_insert_eq by done.
    by rewrite lookup_snoc.
Qed.

Lemma GradientOutput_forward_keeps_tensors (self : GradientOutput R) data
    (h h' : heap R) r :
  model_keeps_tensors (func self) ->
  GradientOutput_forward autograd_grad self data h = (h', r) ->
  keeps_tensors h h'.
Proof.
  intros Hkt Hr.
  eapply (preserves_GradientOutput_forward _ _ (stable_keeps_tensors h));
    [apply flag_stable_keeps_tensors | | done | exact Hr | apply keeps_tensors_refl].
  intros hh hh' r' Hr' Hk.
  eapply keeps_tensors_trans; [exact Hk|]. by eapply Hkt.
Qed.

(** The whole of a normal run of [StressOutput.forward]. *)
Lemma StressOutput_forward_spec (energy_model : GraphModule R) (self : StressOutput R)
    data (h h' : heap R) d' pos cell0 :
  StressOutput_init _init_irreps energy_model true = Ok self ->
  StressOutput_forward autograd_grad self data h = (h', Ok d') ->
  state_tensor h data POSITIONS_KEY = Some pos ->
  state_tensor h data CELL_KEY = Some cell0 ->
  model_keeps_tensors energy_model ->
  exists n N num_batch viewed cellref h1 d c h2 grad_pos raw force stress,
    shape pos = [n; 3] /\
    view_m33 cell0 = Ok viewed /\ expand_n33 viewed num_batch = Ok cellref /\
    shape cellref = [N; 3; 3] /\
    StressOutput_perturb data h = (h1, Ok (d, num_batch, c)) /\
    tensors h1 !! c = Some cellref /\
    GradientOutput_forward autograd_grad (_grad self) d h1 = (h2, Ok d') /\
    state_tensor h2 d' FORCE_KEY = Some grad_pos /\ shape grad_pos = [n; 3] /\
    state_tensor h2 d' STRESS_KEY = Some raw /\ shape raw = [N; 3; 3] /\
    state_tensor h' d' FORCE_KEY = Some force /\ force = neg grad_pos /\
    state_tensor h' d' STRESS_KEY = Some stress /\ shape stress = [N; 3; 3] /\
    forall i j k, i < N -> j < 3 -> k < 3 ->
      at3 stress i j k
      = s_div (at3 raw i j k)
          (triple_product (row cellref i 0) (row cellref i 1) (row cellref i 2)).
Proof.
  intros Hinit Hr Hpos Hcell Hkt.
  destruct (StressOutput_init_Ok _ _ _ Hinit) as (_ & Hwrt & Hout & Hneg & _ & Hfw).
  assert (Hkt' : model_keeps_tensors (func (_grad self))).
  { intros dd hh hh' rr Hrr. rewrite Hfw in Hrr. by eapply Hkt. }
  destruct (StressOutput_forward_Ok _ _ _ _ _ Hr)
    as (h1 & d & nb & c & h2 & d2 & Hp & Hg & Hf).
  pose proof (StressOutput_finish_data _ _ _ _ _ _ Hf) as ->.
  destruct (StressOutput_perturb_spec _ _ _ _ _ _ _ _ Hp Hpos Hcell)
    as (n & N & js & batch & viewed & cellref & S & new_pos & new_cell & -> & _ & _ & _
        & _ & _ & _ & _ & _ & _ & Hnb & HN & Hsp & _ & _ & _ & Hview & Hexp & Hsc & Hc
        & HS & HsS & _ & _ & HP & Hsnp & _).
  assert (Hnd : NoDup (out_field (_grad self))).
  { rewrite Hout. apply NoDup_cons. split; [|apply NoDup_singleton].
    intros Hin%list_elem_of_singleton. done. }
  destruct (GradientOutput_forward_outputs _ _ _ _ _ Hg Hnd Hkt' 0 FORCE_KEY POSITIONS_KEY)
    as (t0 & g0 & gp & Ht0 & Hgp & Hsgp & _); [by rewrite Hout | by rewrite Hwrt |].
  destruct (GradientOutput_forward_outputs _ _ _ _ _ Hg Hnd Hkt' 1 STRESS_KEY DISPLACEMENT)
    as (t1 & g1 & raw & Ht1 & Hraw & Hsraw & Heraw); [by rewrite Hout | by rewrite Hwrt |].
  assert (t0 = new_pos) as -> by congruence.
  assert (t1 = S) as -> by congruence.
  destruct (GradientOutput_forward_keeps_tensors _ _ _ _ _ Hkt' Hg _ _ Hc)
    as (cell & Hcell2 & Hscell & Hecell).
  destruct (StressOutput_finish_Ok _ _ _ _ _ _ _ _ _ Hf Hgp Hraw Hcell2)
    as (vol & scaled & _ & Hvol & Hdiv & Hforce & Hstress).
  destruct (volume_spec _ _ Hvol) as (N' & HsN' & Hsvol & Hevol).
  assert (N' = N) as -> by congruence.
  destruct (binop_n33_n11 _ _ _ _ N Hdiv) as (Hss & Hval);
    [congruence | done | rewrite Heraw; eauto |].
  exists n, N, nb, viewed, cellref, h1, data, c, h2, gp, raw, (neg gp), scaled.
  repeat match goal with |- _ /\ _ => split end; try done; try congruence.
  intros i j k Hi Hj Hk. rewrite Hval by done. f_equal.
  unfold floats. rewrite Hevol. unfold fget. rewrite nth_map_seq by done.
  by rewrite !(row_same_data cellref cell).
Qed.

(** ** C1: the volume that normalises the stress *)

(** C1.  On a normal run of [StressOutput.forward], the stress of each
    configuration [i] is the gradient with respect to the strain divided
    by the scalar triple product [row0 · (row1 × row2)] of the per-batch
    cell as it was before [cell + cell·S] replaced it (the tensor that the
    variable [cell] names at source line 190). *)
Theorem stress_normalised_by_reference_volume (energy_model : GraphModule R)
    (self : StressOutput R) data (h h' : heap R) d' pos cell0 :
  StressOutput_init _init_irreps energy_model true = Ok self ->
  StressOutput_forward autograd_grad self data h = (h', Ok d') ->
  state_tensor h data POSITIONS_KEY = Some pos ->
  state_tensor h data CELL_KEY = Some cell0 ->
  model_keeps_tensors energy_model ->
  exists N num_batch viewed cellref h1 d c h2 raw stress,
    view_m33 cell0 = Ok viewed /\ expand_n33 viewed num_batch = Ok cellref /\
    shape cellref = [N; 3; 3] /\
    StressOutput_perturb data h = (h1, Ok (d, num_batch, c)) /\
    tensors h1 !! c = Some cellref /\
    GradientOutput_forward autograd_grad (_grad self) d h1 = (h2, Ok d') /\
    state_tensor h2 d' STRESS_KEY = Some raw /\ shape raw = [N; 3; 3] /\
    state_tensor h' d' STRESS_KEY = Some stress /\ shape stress = [N; 3; 3] /\
    forall i j k, i < N -> j < 3 -> k < 3 ->
      at3 stress i j k
      = s_div (at3 raw i j k)
          (triple_product (row cellref i 0) (row cellref i 1) (row cellref i 2)).
Proof.
  intros Hinit Hr Hpos Hcell Hkt.
  destruct (StressOutput_forward_spec _ _ _ _ _ _ _ _ Hinit Hr Hpos Hcell Hkt)
    as (n & N & nb & viewed & cellref & h1 & d & c & h2 & gp & raw & force & stress
        & _ & Hview & Hexp & Hsc & Hp & Hc & Hg & _ & _ & Hraw & Hsraw & _ & _
        & Hstress & Hss & Hval).
  by exists N, nb, viewed, cellref, h1, d, c, h2, raw, stress.
Qed.

(** C2 (amended).  On a normal return of [GradientOutput.forward], every
    field of [wrt] has in the returned state the differentiation-enabled
    flag that it had in the state passed in, provided [wrt] has no
    duplicates and its fields name pairwise distinct tensors in both
    states.  [StressOutput.forward] hands its internal [GradientOutput]
    the perturbed positions and the strain, whose flags are on: the
    positions that it returns require gradients, whatever the flag of the
    positions passed in.  (Nothing is restored when [forward] raises.) *)
Theorem flags_restored_on_normal_return :
  (forall (self : GradientOutput R) data (h h' : heap R) d',
      GradientOutput_forward autograd_grad self data h = (h', Ok d') ->
      NoDup (wrt self) -> no_alias h data (wrt self) -> no_alias h' d' (wrt self) ->
      forall k, k ∈ wrt self -> field_flag h' d' k = field_flag h data k) /\
  (forall (energy_model : GraphModule R) (self : StressOutput R) data
          (h h' : heap R) d' pos cell0,
      StressOutput_init _init_irreps energy_model true = Ok self ->
      StressOutput_forward autograd_grad self data h = (h', Ok d') ->
      state_tensor h data POSITIONS_KEY = Some pos ->
      state_tensor h data CELL_KEY = Some cell0 ->
      field_flag h' d' POSITIONS_KEY = Some true).
Proof.
  split.
  - apply GradientOutput_forward_restores.
  - apply StressOutput_forward_positions_flag.
Qed.

(** ** C8: representation types and shapes of the outputs *)




(** ** C7: the sign law *)

Lemma unset_requires_grad_cons data b k l (h : heap R) :
  unset_requires_grad data ((b, k) :: l) h
  = bind (bind (getitem data k) (fun a => requires_grad_ a b))
         (fun _ => unset_requires_grad data l) h.
Proof.
  simpl. unfold bind. destruct (getitem data k h) as [h1 [a|e]]; [|done].
  by destruct (requires_grad_ a b h1) as [h2 [u|e]].
Qed.

Lemma requires_grad__neg a a' b (hp hn hp' hn' : heap R) rp rn t :
  tensors hp !! a = Some t -> tensors hn !! a' = Some (neg t) ->
  requires_grad_ a b hp = (hp', rp) -> requires_grad_ a' b hn = (hn', rn) ->
  rp = rn /\
  ((hp' = hp /\ hn' = hn) \/
   (hp' = mkHeap (<[a := mkTensor (shape t) (elems t) b]> (tensors hp)) (dicts hp) /\
    hn' = mkHeap (<[a' := neg (mkTensor (shape t) (elems t) b)]> (tensors hn)) (dicts hn))).
Proof.
  unfold requires_grad_. intros Ht Hn. rewrite Ht, Hn.
  unfold neg at 1 2. cbn [elems shape requires_grad].
  destruct (elems t) eqn:E, b; intros [= <- <-] [= <- <-]; split; try done;
    try (by left); right; unfold neg; cbn [elems shape requires_grad]; by rewrite ?E.
Qed.

(** One step of the third loop keeps the two runs in step. *)
Lemma toggle_sim m0 d W ps k b (hp hn hp' hn' : heap R) rp rn :
  sim m0 d W ps hp hn ->
  bind (getitem d k) (fun a => requires_grad_ a b) hp = (hp', rp) ->
  bind (getitem d k) (fun a => requires_grad_ a b) hn = (hn', rn) ->
  rp = rn /\ sim m0 d W ps hp' hn'.
Proof.
  intros Hsim. pose proof Hsim as [(mp & mn & Hmp & Hmn & Hall) Hold Hpairs Hinj].
  unfold bind, getitem. rewrite Hmp, Hmn. pose proof (Hall k) as Hk.
  destruct (bool_decide (k ∈ W)).
  - destruct Hk as (g & g' & Hg & Hg' & Hin). rewrite Hg, Hg'.
    destruct (Hpairs g g' Hin) as (Hm & Hm' & t & Ht & Ht').
    intros Hp Hn.
    destruct (requires_grad__neg _ _ _ _ _ _ _ _ _ _ Ht Ht' Hp Hn)
      as [-> [[-> ->]|[-> ->]]]; split; try done.
    split; cbn [tensors dicts].
    + by exists mp, mn.
    + intros a Ha. rewrite !list_lookup_insert_ne by lia. by apply Hold.
    + intros g2 g2' Hin2. destruct (Hpairs g2 g2' Hin2) as (Hm2 & Hm2' & t2 & Ht2 & Ht2').
      split; [done|]. split; [done|].
      destruct (decide (g2 = g)) as [->|Hne].
      * assert (g2' = g') as -> by (by apply (Hinj g g2' g g')).
        eexists. rewrite !list_lookup_insert_eq by (by eapply lookup_lt_Some). done.
      * assert (g2' ≠ g') by (intros ->; by apply Hne, (Hinj g2 g' g g')).
        exists t2. by rewrite !list_lookup_insert_ne.
    + done.
  - destruct Hk as [Heq Hlt]. rewrite <- Heq.
    destruct (mp !! k) as [a|] eqn:Ea; [|intros [= <- <-] [= <- <-]; done].
    specialize (Hlt a eq_refl). unfold requires_grad_. rewrite <- (Hold a Hlt).
    destruct (tensors hp !! a) as [t|] eqn:Et; [|intros [= <- <-] [= <- <-]; done].
    assert (a < length (tensors hp)) by (by eapply lookup_lt_Some).
    assert (a < length (tensors hn)).
    { eapply lookup_lt_Some. rewrite <- (Hold a Hlt). done. }
    destruct (elems t) eqn:E, b; intros [= <- <-] [= <- <-]; split; try done.
    all: split; cbn [tensors dicts]; [by exists mp, mn | | | done].
    all: try (intros a2 Ha2; destruct (decide (a2 = a)) as [->|Hne];
         [ by rewrite !list_lookup_insert_eq by done
         | rewrite !list_lookup_insert_ne by done; by apply Hold ]).
    all: intros g2 g2' Hin2;
         destruct (Hpairs g2 g2' Hin2) as (Hm2 & Hm2' & t2 & Ht2 & Ht2');
         split; [done|]; split; [done|]; exists t2;
         by rewrite !list_lookup_insert_ne by lia.
Qed.

Lemma unset_requires_grad_sim m0 d W ps l (hp hn hp' hn' : heap R) rp rn :
  sim m0 d W ps hp hn ->
  unset_requires_grad d l hp = (hp', rp) ->
  unset_requires_grad d l hn = (hn', rn) ->
  rp = rn /\ (rp = Ok tt -> sim m0 d W ps hp' hn').
Proof.
  revert hp hn. induction l as [|[b k] l IH]; intros hp hn Hsim.
  - simpl. intros [= <- <-] [= <- <-]. done.
  - rewrite !unset_requires_grad_cons. unfold bind at 1 3.
    destruct (bind (getitem d k) (fun a => requires_grad_ a b) hp) as [hp1 r1] eqn:E1.
    destruct (bind (getitem d k) (fun a => requires_grad_ a b) hn) as [hn1 r2] eqn:E2.
    destruct (toggle_sim _ _ _ _ _ _ _ _ _ _ _ _ Hsim E1 E2) as [<- Hsim1].
    destruct r1 as [u|e]; [by apply IH|].
    intros [= <- <-] [= <- <-]. done.
Qed.

(** One more gradient written: the first run binds the field to the
    gradient object, the second one to a new object holding its
    negation. *)
Lemma wsim_step m0 d W ps (hp hn : heap R) mp mn out g t :
  wsim m0 d W ps hp hn ->
  dicts hp !! d = Some mp -> dicts hn !! d = Some mn ->
  tensors hp !! g = Some t -> m0 <= g ->
  (forall g', (g, g') ∉ ps) ->
  wsim m0 d (out :: W) ((g, length (tensors hn)) :: ps)
    (mkHeap (tensors hp) (<[d := <[out := g]> mp]> (dicts hp)))
    (mkHeap (tensors hn ++ [neg t]) (<[d := <[out := length (tensors hn)]> mn]> (dicts hn))).
Proof.
  intros [[(mp' & mn' & Hmp' & Hmn' & Hall) Hold Hpairs Hinj] Hagree Hfresh Hlen]
    Hmp Hmn Ht Hm0 Hnew.
  assert (mp' = mp) as -> by congruence. assert (mn' = mn) as -> by congruence.
  assert (g < length (tensors hp)) as Hg by (by eapply lookup_lt_Some).
  split; [split|..]; cbn [tensors dicts].
  - exists (<[out := g]> mp), (<[out := length (tensors hn)]> mn).
    split; [by apply list_lookup_insert_eq; eapply lookup_lt_Some|].
    split; [by apply list_lookup_insert_eq; eapply lookup_lt_Some|].
    intros k. destruct (decide (k = out)) as [->|Hne].
    + rewrite bool_decide_eq_true_2 by (by left).
      exists g, (length (tensors hn)). rewrite !lookup_insert_eq.
      split; [done|]. split; [done|]. by left.
    + rewrite (bool_decide_ext (k ∈ out :: W) (k ∈ W)).
      2:{ rewrite elem_of_cons. tauto. }
      specialize (Hall k). rewrite !lookup_insert_ne by done.
      destruct (bool_decide (k ∈ W)); [|done].
      destruct Hall as (g2 & g2' & ? & ? & ?). exists g2, g2'.
      split; [done|]. split; [done|]. by right.
  - intros a Ha. rewrite lookup_app_l by lia. by apply Hold.
  - intros g2 g2' [[= -> ->]|Hin]%elem_of_cons.
    + split; [done|]. split; [lia|]. exists t. split; [done|].
      by rewrite list_lookup_middle.
    + destruct (Hpairs _ _ Hin) as (? & ? & t2 & ? & ?).
      destruct (Hfresh _ _ Hin) as [? ?].
      split; [done|]. split; [done|]. exists t2. split; [done|].
      by rewrite lookup_app_l by lia.
  - intros g1 g1' g2 g2' [[= -> ->]|Hin1]%elem_of_cons [[= -> ->]|Hin2]%elem_of_cons.
    + done.
    + destruct (Hfresh _ _ Hin2) as [? ?]. split.
      * intros <-. by destruct (Hnew g2').
      * lia.
    + destruct (Hfresh _ _ Hin1) as [? ?]. split.
      * intros ->. by destruct (Hnew g1').
      * lia.
    + by apply Hinj.
  - intros a Ha. rewrite lookup_app_l by lia. by apply Hagree.
  - intros g2 g2' [[= -> ->]|Hin]%elem_of_cons; rewrite length_app; simpl.
    + lia.
    + destruct (Hfresh _ _ Hin). lia.
  - rewrite length_app. lia.
Qed.

(** The second loop of [forward] in the two runs: they fail together, and
    otherwise each written field holds the gradient in the first run and
    its negation in the second. *)
Lemma write_grads_sim m0 d l : forall W ps (hp hn hp' hn' : heap R) rp rn,
  wsim m0 d W ps hp hn ->
  NoDup (omap snd l) ->
  (forall g, g ∈ omap snd l ->
     m0 <= g < length (tensors hp) /\ forall g', (g, g') ∉ ps) ->
  write_grads d false l hp = (hp', rp) ->
  write_grads d true l hn = (hn', rn) ->
  rp = rn /\
  (rp = Ok tt -> exists W' ps',
     (forall k, k ∈ W' <-> k ∈ l.*1 \/ k ∈ W) /\ sim m0 d W' ps' hp' hn').
Proof.
  induction l as [|[out [g|]] l IH]; intros W ps hp hn hp' hn' rp rn Hw Hnd Hgs.
  - simpl. intros [= <- <-] [= <- <-]. split; [done|]. intros _.
    exists W, ps. split; [|by destruct Hw]. intros k. rewrite elem_of_nil. tauto.
  - simpl in Hnd, Hgs. apply NoDup_cons in Hnd as [Hg Hnd].
    destruct (Hgs g) as [[Hm0 Hlt] Hnew]; [by left|].
    destruct (lookup_lt_is_Some_2 _ _ Hlt) as [t Ht].
    pose proof Hw as [[(mp & mn & Hmp & Hmn & _) _ _ _] Hagree _ _].
    simpl. unfold bind, ret, tensor_at, new_tensor, setitem. cbn [tensors dicts].
    rewrite (Hagree g Hlt), Ht, Hmp. cbn [tensors dicts]. rewrite Hmn.
    intros Hp Hn.
    pose proof (wsim_step m0 d W ps hp hn mp mn out g t Hw Hmp Hmn Ht Hm0 Hnew) as Hw1.
    destruct (IH _ _ _ _ hp' hn' rp rn Hw1 Hnd) as [-> Hok]; [|done|done|].
    + intros g2 Hin2. cbn [tensors]. destruct (Hgs g2) as [? Hn2]; [by right|].
      split; [done|]. intros g2' [[= -> ->]|Hin]%elem_of_cons; [done|].
      by destruct (Hn2 g2').
    + split; [done|]. intros Hr. destruct (Hok Hr) as (W' & ps' & HW' & Hsim).
      exists W', ps'. split; [|done]. intros k. rewrite HW'. simpl.
      rewrite !elem_of_cons. tauto.
  - simpl. unfold raise. intros [= <- <-] [= <- <-]. done.
Qed.

(** The gradient objects are new, pairwise distinct objects; nothing that
    existed before is touched. *)
Lemma alloc_grads_fresh (l : list (nat * option (bool * (nat -> R)))) :
  forall (h h' : heap R) gas,
  alloc_grads l h = (h', Ok gas) ->
  dicts h' = dicts h /\ length gas = length l /\
  length (tensors h) <= length (tensors h') /\
  (forall a, a < length (tensors h) -> tensors h' !! a = tensors h !! a) /\
  NoDup (omap id gas) /\
  (forall x, x ∈ omap id gas -> length (tensors h) <= x < length (tensors h')).
Proof.
  induction l as [|[a [[rg f]|]] l IH]; simpl; intros h h' gas Hr.
  - inv_run. do 4 (split; [done|]). split; [constructor|].
    by intros x ?%elem_of_nil.
  - inv_run. apply IH in Hr1 as (Hd & Hl & Hle & Hold & Hnd & Hin).
    simpl in *. rewrite length_app in *. simpl in *.
    split; [done|]. split; [by rewrite Hl|]. split; [lia|].
    split; [|split].
    + intros a1 Ha1. rewrite Hold by lia. by rewrite lookup_app_l.
    + apply NoDup_cons. split; [|done]. intros Hx%Hin. lia.
    + intros x [->|Hx%Hin]%elem_of_cons; lia.
  - inv_run. apply IH in Hr0 as (Hd & Hl & Hle & Hold & Hnd & Hin).
    simpl. split; [done|]. split; [by rewrite Hl|]. done.
Qed.

Lemma omap_snd_zip_sublist {A B} (ks : list A) (gas : list (option B)) :
  omap snd (zip ks gas) `sublist_of` omap id gas.
Proof.
  revert ks. induction gas as [|[g|] gas IH]; intros [|k ks]; simpl;
    try apply sublist_nil_l.
  - by apply sublist_skip.
  - apply IH.
Qed.

(** What the relation between the two runs says about the fields of the
    returned state. *)
Lemma sim_state_tensor m0 d W ps (hp hn : heap R) k :
  sim m0 d W ps hp hn ->
  if bool_decide (k ∈ W)
  then exists t, state_tensor hp d k = Some t /\ state_tensor hn d k = Some (neg t)
  else state_tensor hn d k = state_tensor hp d k.
Proof.
  intros [(mp & mn & Hmp & Hmn & Hall) Hold Hpairs _].
  unfold state_tensor, dict_at. rewrite Hmp, Hmn. specialize (Hall k).
  destruct (bool_decide (k ∈ W)).
  - destruct Hall as (g & g' & -> & -> & Hin).
    destruct (Hpairs _ _ Hin) as (_ & _ & t & ? & ?). by exists t.
  - destruct Hall as [<- Hlt]. destruct (mp !! k) as [a|]; [|done].
    symmetry. by apply Hold, Hlt.
Qed.

(** Two wrappers that differ in the sign only, run on the same state. *)
Lemma GradientOutput_forward_sign (selfp selfn : GradientOutput R) data
    (h hp hn : heap R) rp rn :
  wrt selfn = wrt selfp -> func selfn = func selfp -> of_ selfn = of_ selfp ->
  training selfn = training selfp -> out_field selfn = out_field selfp ->
  _negate selfp = false -> _negate selfn = true ->
  length (out_field selfp) = length (wrt selfp) ->
  (forall h1 olds h2 d2,
     set_requires_grad data (wrt selfp) h = (h1, Ok olds) ->
     gm_forward (func selfp) data h1 = (h2, Ok d2) -> state_wf h2 d2) ->
  GradientOutput_forward autograd_grad selfp data h = (hp, rp) ->
  GradientOutput_forward autograd_grad selfn data h = (hn, rn) ->
  rp = rn /\
  forall d', rp = Ok d' -> forall k,
    if bool_decide (k ∈ out_field selfp)
    then exists t, state_tensor hp d' k = Some t /\ state_tensor hn d' k = Some (neg t)
    else state_tensor hn d' k = state_tensor hp d' k.
Proof.
  intros Hwrt Hfunc Hof Htr Hout Hnp Hnn Hlen Hwf.
  unfold GradientOutput_forward. rewrite Hwrt, Hfunc, Hof, Htr, Hout, Hnp, Hnn.
  unfold bind, ret.
  destruct (set_requires_grad data (wrt selfp) h) as [h1 [olds|e]] eqn:E1;
    [|intros [= <- <-] [= <- <-]; done].
  destruct (gm_forward (func selfp) data h1) as [h2 [d2|e]] eqn:E2;
    [|intros [= <- <-] [= <- <-]; done].
  destruct (getitem d2 (of_ selfp) h2) as [h2' [e0|e]] eqn:E3;
    [|intros [= <- <-] [= <- <-]; done].
  destruct (tensor_at e0 h2') as [h2'' [et|e]] eqn:E4;
    [|intros [= <- <-] [= <- <-]; done].
  destruct (grad autograd_grad (tsum et) olds.2 (training selfp) h2'')
    as [h3 [gs|e]] eqn:E5; [|intros [= <- <-] [= <- <-]; done].
  assert (h2' = h2 /\ exists m, dicts h2 !! d2 = Some m) as [-> [m Hm]].
  { unfold getitem in E3. destruct (dicts h2 !! d2) as [m|]; [|done].
    destruct (m !! of_ selfp); injection E3 as <- ?; eauto. }
  assert (h2'' = h2) as ->.
  { unfold tensor_at in E4. by destruct (tensors h2 !! e0); injection E4 as <- ?. }
  unfold grad in E5. destruct (autograd_grad _ _ _ _) as [ans|]; [|done].
  apply alloc_grads_fresh in E5 as (Hd & Hl & Hle & Hold & Hnd & Hin).
  rewrite length_imap in Hl.
  apply set_requires_grad_length in E1 as Hlo. destruct Hlo as [_ Hlo].
  pose proof (Hwf _ _ _ _ eq_refl E2) as Hwf2.
  assert (wsim (length (tensors h2)) d2 [] [] h3 h3) as Hw.
  { split; [split|..]; try done; try (by intros ? ? ?%elem_of_nil);
      try (by intros ? ? ? ? ?%elem_of_nil).
    exists m, m. rewrite Hd. split; [done|]. split; [done|]. intros k.
    rewrite bool_decide_eq_false_2 by (by intros ?%elem_of_nil).
    split; [done|]. intros a Ha. apply (Hwf2 k). unfold dict_at. by rewrite Hm. }
  destruct (write_grads d2 false (zip (out_field selfp) gs) h3) as [h4p r4p] eqn:E6p.
  destruct (write_grads d2 true (zip (out_field selfp) gs) h3) as [h4n r4n] eqn:E6n.
  destruct (write_grads_sim (length (tensors h2)) d2 (zip (out_field selfp) gs)
              [] [] h3 h3 h4p h4n r4p r4n Hw) as [<- Hok]; [| |done|done|].
  { eapply sublist_NoDup; [exact Hnd|apply omap_snd_zip_sublist]. }
  { intros g Hg. split; [|by intros ? ?%elem_of_nil].
    split; [by apply Hin, (elem_of_sublist _ _ _ Hg), omap_snd_zip_sublist|].
    by apply Hin, (elem_of_sublist _ _ _ Hg), omap_snd_zip_sublist. }
  destruct r4p as [[]|e]; [|intros [= <- <-] [= <- <-]; done].
  destruct (Hok eq_refl) as (W' & ps' & HW' & Hsim).
  destruct (unset_requires_grad d2 (zip olds.1 (wrt selfp)) h4p) as [h5p r5p] eqn:E7p.
  destruct (unset_requires_grad d2 (zip olds.1 (wrt selfp)) h4n) as [h5n r5n] eqn:E7n.
  destruct (unset_requires_grad_sim _ _ _ _ _ _ _ _ _ _ _ Hsim E7p E7n) as [<- Hok'].
  destruct r5p as [[]|e]; intros [= <- <-] [= <- <-]; [|done].
  split; [done|]. intros d' [= <-] k.
  rewrite (bool_decide_ext (k ∈ out_field selfp) (k ∈ W')).
  2:{ rewrite HW', elem_of_nil, fst_zip by lia. tauto. }
  exact (sim_state_tensor _ _ _ ps' _ _ k (Hok' eq_refl)).
Qed.

(** C7.  Sign law: a wrapper built with sign -1 and one built with sign
    +1 from the same wrapped model, run on the same state, end the same
    way; if they return, every output field of the first holds the
    element-wise negation of the tensor that the second holds there, and
    every other field of the returned state holds the same tensor. *)
Theorem sign_law (energy_model : GraphModule R) of0 wrt0 out0
    (selfp selfn : GradientOutput R) data (h hp hn : heap R) rp rn :
  GradientOutput_init _init_irreps energy_model of0 wrt0 out0 1 = Ok selfp ->
  GradientOutput_init _init_irreps energy_model of0 wrt0 out0 (-1) = Ok selfn ->
  (forall h1 olds h2 d2,
     set_requires_grad data (as_list wrt0) h = (h1, Ok olds) ->
     gm_forward energy_model data h1 = (h2, Ok d2) -> state_wf h2 d2) ->
  GradientOutput_forward autograd_grad selfp data h = (hp, rp) ->
  GradientOutput_forward autograd_grad selfn data h = (hn, rn) ->
  rp = rn /\
  forall d', rp = Ok d' -> forall k,
    if bool_decide (k ∈ out_field selfp)
    then exists t, state_tensor hp d' k = Some t /\ state_tensor hn d' k = Some (neg t)
    else state_tensor hn d' k = state_tensor hp d' k.
Proof.
  intros Hp Hn Hwf.
  apply GradientOutput_init_Ok in Hp
    as (_ & _ & Hnp & Hop & Hwp & Hfp & Houtp & Hlenp & Htp & _).
  apply GradientOutput_init_Ok in Hn
    as (_ & _ & Hnn & Hon & Hwn & Hfn & Houtn & _ & Htn & _).
  apply GradientOutput_forward_sign; try congruence.
  - by rewrite Hnp.
  - by rewrite Hnn.
  - rewrite Hwp, Hfp. exact Hwf.
Qed.

(** ** C3: the helper field does not leak *)

Lemma dict_at_delitem d k (h h' : heap R) u :
  delitem d k h = (h', Ok u) -> dict_at h' d k = None.
Proof.
  intros (m & Hm & ->)%delitem_Ok. unfold dict_at. simpl.
  rewrite list_lookup_insert_eq; [|by eapply lookup_lt_Some].
  apply lookup_delete_eq.
Qed.

Lemma StressOutput_finish_no_displacement data num_batch c (h h' : heap R) d' :
  StressOutput_finish data num_batch c h = (h', Ok d') ->
  dict_at h' d' DISPLACEMENT = None.
Proof.
  unfold StressOutput_finish. intros Hr. inv_run.
  destruct (negb _); [discriminate|]. inv_run.
  unfold dict_at. cbn [dicts].
  rewrite list_lookup_insert_eq by (by eapply lookup_lt_Some).
  apply lookup_delete_eq.
Qed.

(** C3.  Whenever [StressOutput.forward] returns a state, that state has
    no ["_displacement"] field: the field stored at source line 184 is
    deleted at line 212, before the return. *)
Theorem StressOutput_forward_no_leak (self : StressOutput R) data (h h' : heap R) d' :
  StressOutput_forward autograd_grad self data h = (h', Ok d') ->
  dict_at h' d' DISPLACEMENT = None.
Proof.
  unfold StressOutput_forward. intros Hr. inv_run.
  eauto using StressOutput_finish_no_displacement.
Qed.

(** ** C6: contract violations are refused by the constructors *)




(** ** C9: a string stands for the one-element list *)

(** C9.  [GradientOutput.__init__] coerces a string given as [wrt] or as
    [out_field] to the one-element list, so that both constructions raise
    the same exception or yield the same object, whose [forward] is
    therefore the same function of the state. *)
Theorem GradientOutput_init_string_as_list (func : GraphModule R) of_ sign :
  (forall (w : string) out_field,
      GradientOutput_init _init_irreps func of_ (inl w) out_field sign
      = GradientOutput_init _init_irreps func of_ (inr [w]) out_field sign) /\
  (forall wrt (o : string),
      GradientOutput_init _init_irreps func of_ wrt (Some (inl o)) sign
      = GradientOutput_init _init_irreps func of_ wrt (Some (inr [o])) sign) /\
  (forall (w o : string),
      match GradientOutput_init _init_irreps func of_ (inl w) (Some (inl o)) sign,
            GradientOutput_init _init_irreps func of_ (inr [w]) (Some (inr [o])) sign with
      | Ok s1, Ok s2 =>
          wrt s1 = [w] /\ out_field s1 = [o] /\
          forall data h, GradientOutput_forward autograd_grad s1 data h
                         = GradientOutput_forward autograd_grad s2 data h
      | Raise e1, Raise e2 => e1 = e2
      | _, _ => False
      end).
Proof.
  repeat split; try reflexivity.
  intros w o.
  change (GradientOutput_init _init_irreps func of_ (inr [w]) (Some (inr [o])) sign)
    with (GradientOutput_init _init_irreps func of_ (inl w) (Some (inl o)) sign).
  destruct (GradientOutput_init _init_irreps func of_ (inl w) (Some (inl o)) sign)
    as [s|e] eqn:E; [|done].
  unfold GradientOutput_init in E.
  destruct (negb (is_unit_sign sign)); [discriminate|]. simpl in E.
  destruct (_init_irreps _ _ _) as [[ins outs]|]; [|discriminate].
  destruct (ins !! w); [|discriminate].
  injection E as <-. done.
Qed.

End Properties.

(** * The worked instance *)

Lemma Z_zero_laws : ZeroLaws Z.
Proof. split; intros x; simpl; lia. Qed.

Lemma state_wfb_correct {R} (h : heap R) (d : nat) :
  state_wfb h d = true -> state_wf h d.
Proof.
  unfold state_wfb, state_wf, dict_at. intros Hb k a.
  destruct (dicts h !! d) as [m|]; [|done]. intros Hk.
  rewrite forallb_forall in Hb.
  specialize (Hb (k, a)). apply Nat.ltb_lt, Hb.
  apply list_elem_of_In, elem_of_map_to_list, Hk.
Qed.

Lemma ex_forward_keeps_tensors d (h h' : heap Z) r :
  ex_forward d h = (h', r) -> keeps_tensors h h'.
Proof.
  unfold ex_forward, bind, getitem, tensor_at, new_tensor, setitem, ret.
  destruct (dicts h !! d) as [m|] eqn:Em;
    [|intros [= <- <-]; apply keeps_tensors_refl].
  destruct (m !! POSITIONS_KEY) as [p|];
    [|intros [= <- <-]; apply keeps_tensors_refl].
  destruct (tensors h !! p) as [pos|];
    [|intros [= <- <-]; apply keeps_tensors_refl].
  cbn [tensors dicts]. rewrite Em. intros [= <- <-] x tx Hx. exists tx.
  cbn [tensors]. by rewrite (lookup_app_l _ _ _ (lookup_lt_Some _ _ _ Hx)).
Qed.

Lemma ex_model_keeps_tensors : model_keeps_tensors ex_model.
Proof. intros d h h' r. apply ex_forward_keeps_tensors. Qed.

Lemma ex_stress_model_keeps_tensors : model_keeps_tensors ex_stress_model.
Proof. intros d h h' r. apply ex_forward_keeps_tensors. Qed.

Lemma ex_model_keeps_field k :
  k ≠ TOTAL_ENERGY_KEY -> model_keeps_field ex_model k.
Proof.
  intros Hk d h h' r. simpl.
  unfold ex_forward, bind, getitem, tensor_at, new_tensor, setitem, ret, dict_at.
  destruct (dicts h !! d) as [m|] eqn:Em; [|by intros [= <- <-]; rewrite Em].
  destruct (m !! POSITIONS_KEY) as [p|]; [|by intros [= <- <-]; rewrite Em].
  destruct (tensors h !! p) as [pos|]; [|by intros [= <- <-]; rewrite Em].
  cbn [tensors dicts]. rewrite Em. intros [= <- <-]. cbn [dicts].
  rewrite list_lookup_insert_eq by (by eapply lookup_lt_Some).
  by rewrite lookup_insert_ne.
Qed.

(** ** Instances of the theorems *)

Lemma StressOutput_forward_no_leak_witness :
  ex_stress_run = (ex_stress_run.1, Ok 0) /\
  dict_at ex_stress_run.1 0 DISPLACEMENT = None.
Proof.
  split; [vm_compute; reflexivity|].
  apply (StressOutput_forward_no_leak ex_autograd ex_stress 0 ex_heap _ 0).
  vm_compute. reflexivity.
Defined.

Lemma stress_normalised_by_reference_volume_witness :
  StressOutput_init init_irreps_spec ex_model true = Ok ex_stress /\
  ex_stress_run = (ex_stress_run.1, Ok 0) /\
  state_tensor ex_heap 0 POSITIONS_KEY = Some ex_positions /\
  state_tensor ex_heap 0 CELL_KEY = Some ex_cell /\
  exists N num_batch viewed cellref h1 d c h2 raw stress,
    view_m33 ex_cell = Ok viewed /\ expand_n33 viewed num_batch = Ok cellref /\
    shape cellref = [N; 3; 3] /\
    StressOutput_perturb 0 ex_heap = (h1, Ok (d, num_batch, c)) /\
    tensors h1 !! c = Some cellref /\
    GradientOutput_forward ex_autograd (_grad ex_stress) d h1 = (h2, Ok 0) /\
    state_tensor h2 0 STRESS_KEY = Some raw /\ shape raw = [N; 3; 3] /\
    state_tensor ex_stress_run.1 0 STRESS_KEY = Some stress /\
    shape stress = [N; 3; 3] /\
    forall i j k, i < N -> j < 3 -> k < 3 ->
      at3 stress i j k
      = s_div (at3 raw i j k)
          (triple_product (row cellref i 0) (row cellref i 1) (row cellref i 2)).
Proof.
  do 4 (split; [vm_compute; reflexivity|]).
  apply (stress_normalised_by_reference_volume ex_autograd init_irreps_spec
           ex_model ex_stress 0 ex_heap ex_stress_run.1 0 ex_positions ex_cell).
  - vm_compute. reflexivity.
  - vm_compute. reflexivity.
  - vm_compute. reflexivity.
  - vm_compute. reflexivity.
  - exact ex_model_keeps_tensors.
Defined.


Lemma StressOutput_forward_no_rollback_witness :
  StressOutput_init init_irreps_spec ex_model true = Ok ex_stress /\
  ex_perturbed = (ex_perturbed.1, Ok (0, 1%Z, 3)) /\
  GradientOutput_forward (ex_autograd_without 1) (_grad ex_stress) 0 ex_perturbed.1
  = (ex_failed_run.1, Raise grad_error) /\
  ex_failed_run = (ex_failed_run.1, Raise grad_error) /\
  0 = 0 /\ length (tensors ex_heap) <= 3 /\
  dict_at ex_failed_run.1 0 DISPLACEMENT = Some (3 + 1) /\
  dict_at ex_failed_run.1 0 POSITIONS_KEY = Some (3 + 2) /\
  dict_at ex_failed_run.1 0 CELL_KEY = Some (3 + 3) /\
  (model_keeps_tensors ex_model -> keeps_tensors ex_perturbed.1 ex_failed_run.1).
Proof.
  do 3 (split; [vm_compute; reflexivity|]).
  apply (StressOutput_forward_no_rollback (ex_autograd_without 1) init_irreps_spec
           ex_model ex_stress 0 ex_heap ex_perturbed.1 ex_failed_run.1 0 1%Z 3
           grad_error ex_positions ex_cell);
    try (vm_compute; reflexivity); by apply ex_model_keeps_field.
Defined.

Lemma disconnected_gradient_is_fatal_witness :
  exists h', GradientOutput_forward (ex_autograd_without 0) (ex_force (-1)) 0 ex_heap
             = (h', Raise grad_error).
Proof.
  apply (disconnected_gradient_is_fatal (ex_autograd_without 0) (ex_force (-1)) 0
           ex_heap
           (set_requires_grad 0 [POSITIONS_KEY] ex_heap).1
           (ex_forward 0 (set_requires_grad 0 [POSITIONS_KEY] ex_heap).1).1
           ([false], [0]) 0
           (mkTensor [1; 1] (Floats [21%Z]) true)
           (fun i => if i =? 0 then None
                     else Some (true, fun j => Z.of_nat (100 * i + j + 1)))
           0).
  - reflexivity.
  - vm_compute. reflexivity.
  - vm_compute. reflexivity.
  - vm_compute. reflexivity.
  - reflexivity.
  - repeat constructor.
  - simpl. lia.
  - reflexivity.
Defined.

Lemma sign_law_witness :
  ex_force_run 1 = ((ex_force_run 1).1, Ok 0) /\
  ex_force_run (-1) = ((ex_force_run (-1)).1, Ok 0) /\
  (Ok 0 : result nat) = Ok 0 /\
  forall d', Ok 0 = Ok d' -> forall k,
    if bool_decide (k ∈ out_field (ex_force 1))
    then exists t, state_tensor (ex_force_run 1).1 d' k = Some t /\
                   state_tensor (ex_force_run (-1)).1 d' k = Some (neg t)
    else state_tensor (ex_force_run (-1)).1 d' k
         = state_tensor (ex_force_run 1).1 d' k.
Proof.
  do 2 (split; [vm_compute; reflexivity|]).
  apply (sign_law ex_autograd init_irreps_spec ex_model TOTAL_ENERGY_KEY
           (inl POSITIONS_KEY) (Some (inl FORCE_KEY)) (ex_force 1) (ex_force (-1))
           0 ex_heap).
  - vm_compute. reflexivity.
  - vm_compute. reflexivity.
  - intros h1 olds h2 d2 E1 E2. vm_compute in E1. injection E1 as <- <-.
    vm_compute in E2. injection E2 as <- <-.
    apply state_wfb_correct. vm_compute. reflexivity.
  - vm_compute. reflexivity.
  - vm_compute. reflexivity.
Defined.

Lemma flags_restored_on_normal_return_witness :
  ex_force_run (-1) = ((ex_force_run (-1)).1, Ok 0) /\
  field_flag (ex_force_run (-1)).1 0 POSITIONS_KEY
  = field_flag ex_heap 0 POSITIONS_KEY /\
  ex_stress_run = (ex_stress_run.1, Ok 0) /\
  field_flag ex_stress_run.1 0 POSITIONS_KEY = Some true.
Proof.
  split; [vm_compute; reflexivity|]. split; [|split; [vm_compute; reflexivity|]].
  - apply (proj1 (flags_restored_on_normal_return ex_autograd init_irreps_spec)
             (ex_force (-1)) 0 ex_heap (ex_force_run (-1)).1 0).
    + vm_compute. reflexivity.
    + apply NoDup_singleton.
    + intros k1 k2 a ->%list_elem_of_singleton ->%list_elem_of_singleton. done.
    + intros k1 k2 a ->%list_elem_of_singleton ->%list_elem_of_singleton. done.
    + by left.
  - apply (proj2 (flags_restored_on_normal_return ex_autograd init_irreps_spec)
             ex_model ex_stress 0 ex_heap ex_stress_run.1 0 ex_positions ex_cell);
      vm_compute; reflexivity.
Defined.



(** ** Inputs on which the specification's wording fails *)

(** C2.  The flags are not restored on the failure path: with positions
    not connected to the energy, [forward] raises and leaves the flag of
    the positions enabled; and the state that [StressOutput.forward]
    returns holds positions whose flag is enabled, whatever it was. *)
Lemma flags_left_enabled_on_failure :
  GradientOutput_forward (ex_autograd_without 0) (ex_force (-1)) 0 ex_heap
  = ((GradientOutput_forward (ex_autograd_without 0) (ex_force (-1)) 0 ex_heap).1,
     Raise grad_error) /\
  field_flag ex_heap 0 POSITIONS_KEY = Some false /\
  field_flag (GradientOutput_forward (ex_autograd_without 0) (ex_force (-1)) 0 ex_heap).1
    0 POSITIONS_KEY = Some true /\
  ex_stress_run = (ex_stress_run.1, Ok 0) /\
  field_flag ex_stress_run.1 0 POSITIONS_KEY = Some true /\
  ~ flags_restored_on_every_exit (ex_autograd_without 0).
Proof.
  do 5 (split; [vm_compute; reflexivity|]).
  intros Hall.
  specialize (Hall (ex_force (-1)) 0 ex_heap _ _ POSITIONS_KEY eq_refl).
  vm_compute in Hall. by specialize (Hall ltac:(by left)).
Qed.

(** C5.  The diagnostic is the same whichever entry is disconnected: no
    reading of the exception tells the entry. *)
Lemma diagnostic_does_not_name_the_entry :
  ex_disconnected_run 0 = ((ex_disconnected_run 0).1, Raise grad_error) /\
  ex_disconnected_run 1 = ((ex_disconnected_run 1).1, Raise grad_error) /\
  ~ exists which : exn -> nat,
      forall k h' e, k < 2 -> ex_disconnected_run k = (h', Raise e) -> which e = k.
Proof.
  do 2 (split; [vm_compute; reflexivity|]).
  intros [which Hw].
  pose proof (Hw 0 _ grad_error ltac:(lia) ltac:(vm_compute; reflexivity)) as H0.
  pose proof (Hw 1 _ grad_error ltac:(lia) ltac:(vm_compute; reflexivity)) as H1.
  congruence.
Qed.

